(** * The ExtJS Direct codec of r0123r/rpc ([json/server.go])

    A shallow embedding of the per-call session [CodecRequest] and of its
    three methods [Method], [ReadRequest] and [WriteResponse], together
    with the part of Go's standard library the methods call
    ([errors.New], [encoding/json], [net/http]'s response writer).

    Layout: the library model first (modules [errors], [json], [http],
    [Encoder]), then the data types and methods of [server.go], then the
    decoder of a request body (modules [io], [utf8], [Decoder]) with
    [newCodecRequest] and the codec, then the theorems: about the three
    methods on every session, and about the sessions [newCodecRequest]
    builds. *)

From Stdlib Require Import String Ascii ZArith List Bool Lia.
From stdpp Require Import gmap strings pretty.
Import ListNotations.
Open Scope string_scope.

(* ================================================================== *)
(** ** Go's [error] values *)
(* ================================================================== *)

(** The codec only ever stores errors, compares them with [nil] and asks
    for their text, so an error is its origin and its text.  A Go value of
    type [error] is [option error] here, [None] being [nil]. *)
Inductive error : Type :=
| errorString (text : string)        (* errors.New(text) *)
| SyntaxError                        (* *json.SyntaxError *)
| UnmarshalTypeError (what : string) (* *json.UnmarshalTypeError{Value: what} *)
| MarshalerError (text : string)     (* *json.MarshalerError, UnsupportedValueError *)
| ErrWrite.                          (* what the transport's Write returned *)

Module errors.
(** [errors.New(text)] *)
Definition New (text : string) : error := errorString text.
End errors.

(** The [Error() string] method.  The texts of the library's own errors
    are abbreviated; only the text of an [errors.New] is exact. *)
Definition Error (e : error) : string :=
  match e with
  | errorString text => text
  | SyntaxError => "json: syntax error"
  | UnmarshalTypeError what => "json: cannot unmarshal " ++ what
  | MarshalerError text => "json: error calling MarshalJSON: " ++ text
  | ErrWrite => "write: broken pipe"
  end.

(* ================================================================== *)
(** ** [encoding/json]: syntax *)
(* ================================================================== *)

Module json.

(** [type RawMessage []byte]: a JSON text kept as written. *)
Definition RawMessage : Type := string.

(** The syntax tree of a JSON text.  Numbers keep their literal and
    strings keep the characters between their quotes exactly as written
    (escape sequences are checked, not expanded). *)
#[warnings="-register-all"]
Inductive value : Type :=
| Null
| Bool (b : bool)
| Number (lit : string)
| String (raw : string)
| Array (elems : list value)
| Object (members : list (string * value)).

Definition dquote : ascii := "034".
Definition backslash : ascii := "092".

(** The scanner's [isSpace]. *)
Definition isSpace (c : ascii) : bool :=
  (c =? " ")%char || (c =? "009")%char || (c =? "013")%char || (c =? "010")%char.

Fixpoint skip_space (s : string) : string :=
  match s with
  | String.String c s' => if isSpace c then skip_space s' else s
  | EmptyString => s
  end.

Definition is_digit (c : ascii) : bool :=
  (48 <=? nat_of_ascii c)%nat && (nat_of_ascii c <=? 57)%nat.

Definition is_hex (c : ascii) : bool :=
  is_digit c
  || ((97 <=? nat_of_ascii c)%nat && (nat_of_ascii c <=? 102)%nat)
  || ((65 <=? nat_of_ascii c)%nat && (nat_of_ascii c <=? 70)%nat).

(** The characters that may follow a backslash ([stateInStringEsc]),
    [u] apart. *)
Definition is_escape (c : ascii) : bool :=
  (c =? "b")%char || (c =? "f")%char || (c =? "n")%char || (c =? "r")%char
  || (c =? "t")%char || (c =? backslash)%char || (c =? "/")%char
  || (c =? dquote)%char.

(** [scan_string s] reads a string literal whose opening quote has been
    consumed: the characters up to the closing quote, and what follows
    it.  Bytes below 0x20 are refused ([stateInString]). *)
Fixpoint scan_string (s : string) : option (string * string) :=
  match s with
  | EmptyString => None
  | String.String c s1 =>
      if (c =? dquote)%char then Some (EmptyString, s1)
      else if (c =? backslash)%char then
        match s1 with
        | String.String e s2 =>
            if is_escape e then
              match scan_string s2 with
              | Some (body, rest) => Some (String.String c (String.String e body), rest)
              | None => None
              end
            else if (e =? "u")%char then
              match s2 with
              | String.String h1 (String.String h2 (String.String h3 (String.String h4 s3))) =>
                  if is_hex h1 && is_hex h2 && is_hex h3 && is_hex h4 then
                    match scan_string s3 with
                    | Some (body, rest) =>
                        Some (String.String c (String.String e
                               (String.String h1 (String.String h2
                                 (String.String h3 (String.String h4 body))))), rest)
                    | None => None
                    end
                  else None
              | _ => None
              end
            else None
        | EmptyString => None
        end
      else if (nat_of_ascii c <? 32)%nat then None
      else
        match scan_string s1 with
        | Some (body, rest) => Some (String.String c body, rest)
        | None => None
        end
  end.

(** The longest prefix of digits, and the rest. *)
Fixpoint span_digits (s : string) : string * string :=
  match s with
  | String.String c s' =>
      if is_digit c then
        let '(ds, rest) := span_digits s' in (String.String c ds, rest)
      else (EmptyString, s)
  | EmptyString => (EmptyString, EmptyString)
  end.

(** One or more digits. *)
Definition scan_digits1 (s : string) : option (string * string) :=
  match span_digits s with
  | (EmptyString, _) => None
  | (ds, rest) => Some (ds, rest)
  end.

(** The digits of the integer part: a single zero, or a digit from 1 to 9
    followed by any digits. *)
Definition scan_magnitude (s : string) : option (string * string) :=
  match s with
  | String.String c s' =>
      if (c =? "0")%char then Some ("0", s') else scan_digits1 s
  | EmptyString => None
  end.

(** The integer part: an optional minus sign, then the digits. *)
Definition scan_int (s : string) : option (string * string) :=
  match s with
  | String.String c s' =>
      if (c =? "-")%char then
        match scan_magnitude s' with
        | Some (ds, rest) => Some (String.String c ds, rest)
        | None => None
        end
      else scan_magnitude s
  | EmptyString => None
  end.

(** The optional fraction: a dot and one or more digits. *)
Definition scan_frac (s : string) : option (string * string) :=
  match s with
  | String.String c s' =>
      if (c =? ".")%char then
        match scan_digits1 s' with
        | Some (ds, rest) => Some ("." ++ ds, rest)
        | None => None
        end
      else Some (EmptyString, s)
  | EmptyString => Some (EmptyString, s)
  end.

(** The optional exponent: e or E, an optional sign, one or more
    digits. *)
Definition scan_exp (s : string) : option (string * string) :=
  match s with
  | String.String e s' =>
      if (e =? "e")%char || (e =? "E")%char then
        let '(sign, s1) :=
          match s' with
          | String.String c s2 =>
              if (c =? "+")%char || (c =? "-")%char
              then (String.String c EmptyString, s2) else (EmptyString, s')
          | EmptyString => (EmptyString, s')
          end in
        match scan_digits1 s1 with
        | Some (ds, rest) => Some (String.String e (sign ++ ds), rest)
        | None => None
        end
      else Some (EmptyString, s)
  | EmptyString => Some (EmptyString, s)
  end.

(** A number literal and what follows it. *)
Definition scan_number (s : string) : option (string * string) :=
  match scan_int s with
  | Some (i, r1) =>
      match scan_frac r1 with
      | Some (f, r2) =>
          match scan_exp r2 with
          | Some (e, r3) => Some (i ++ f ++ e, r3)
          | None => None
          end
      | None => None
      end
  | None => None
  end.

(** [strip_prefix p s] is what follows [p] in [s]. *)
Fixpoint strip_prefix (p s : string) : option string :=
  match p, s with
  | EmptyString, _ => Some s
  | String.String a p', String.String b s' =>
      if (a =? b)%char then strip_prefix p' s' else None
  | _, EmptyString => None
  end.

(** The scanner's [maxNestingDepth]. *)
Definition maxNestingDepth : N := 10000.

(** Recursive descent over one value.  [fuel] bounds the recursion,
    [depth] counts the arrays and objects that are open.  The input
    starts at the value's first byte (leading space already skipped). *)
Fixpoint parse_value (fuel : nat) (depth : N) (s : string)
  : option (value * string) :=
  match fuel with
  | O => None
  | S fuel' =>
      match s with
      | EmptyString => None
      | String.String c s' =>
          if (c =? "[")%char then
            if (maxNestingDepth <? depth + 1)%N then None
            else
              match skip_space s' with
              | String.String c1 rest =>
                  if (c1 =? "]")%char then Some (Array [], rest)
                  else
                    match parse_elements fuel' (depth + 1)%N (String.String c1 rest) with
                    | Some (vs, rest') => Some (Array vs, rest')
                    | None => None
                    end
              | EmptyString => None
              end
          else if (c =? "{")%char then
            if (maxNestingDepth <? depth + 1)%N then None
            else
              match skip_space s' with
              | String.String c1 rest =>
                  if (c1 =? "}")%char then Some (Object [], rest)
                  else
                    match parse_members fuel' (depth + 1)%N (String.String c1 rest) with
                    | Some (ms, rest') => Some (Object ms, rest')
                    | None => None
                    end
              | EmptyString => None
              end
          else if (c =? dquote)%char then
            match scan_string s' with
            | Some (body, rest) => Some (String body, rest)
            | None => None
            end
          else if (c =? "n")%char then
            option_map (fun rest => (Null, rest)) (strip_prefix "ull" s')
          else if (c =? "t")%char then
            option_map (fun rest => (Bool true, rest)) (strip_prefix "rue" s')
          else if (c =? "f")%char then
            option_map (fun rest => (Bool false, rest)) (strip_prefix "alse" s')
          else
            match scan_number s with
            | Some (lit, rest) => Some (Number lit, rest)
            | None => None
            end
      end
  end

(** The elements of an array after its opening bracket, up to and
    including the closing bracket; there is at least one. *)
with parse_elements (fuel : nat) (depth : N) (s : string)
  : option (list value * string) :=
  match fuel with
  | O => None
  | S fuel' =>
      match parse_value fuel' depth s with
      | Some (v, r) =>
          match skip_space r with
          | String.String c r' =>
              if (c =? ",")%char then
                match parse_elements fuel' depth (skip_space r') with
                | Some (vs, rest) => Some (v :: vs, rest)
                | None => None
                end
              else if (c =? "]")%char then Some ([v], r')
              else None
          | EmptyString => None
          end
      | None => None
      end
  end

(** The members of an object after its opening brace, up to and
    including the closing brace; there is at least one. *)
with parse_members (fuel : nat) (depth : N) (s : string)
  : option (list (string * value) * string) :=
  match fuel with
  | O => None
  | S fuel' =>
      match s with
      | String.String q s' =>
          if (q =? dquote)%char then
            match scan_string s' with
            | Some (key, r) =>
                match skip_space r with
                | String.String colon r1 =>
                    if (colon =? ":")%char then
                      match parse_value fuel' depth (skip_space r1) with
                      | Some (v, r2) =>
                          match skip_space r2 with
                          | String.String c r3 =>
                              if (c =? ",")%char then
                                match parse_members fuel' depth (skip_space r3) with
                                | Some (ms, rest) => Some ((key, v) :: ms, rest)
                                | None => None
                                end
                              else if (c =? "}")%char then Some ([(key, v)], r3)
                              else None
                          | EmptyString => None
                          end
                      | None => None
                      end
                    else None
                | EmptyString => None
                end
            | None => None
            end
          else None
      | EmptyString => None
      end
  end.

(** A whole text: one value between optional space, nothing after it
    ([checkValid]).  Every level of the descent consumes a byte, so the
    length of the text is fuel enough ([parse_fuel_independent] below). *)
Definition parse (data : RawMessage) : option value :=
  match parse_value (S (String.length data)) 0%N (skip_space data) with
  | Some (v, rest) =>
      match skip_space rest with
      | EmptyString => Some v
      | _ => None
      end
  | None => None
  end.

(** [json.Valid] *)
Definition Valid (data : RawMessage) : bool :=
  match parse data with Some _ => true | None => false end.

(* ---------------------------------------------------------------- *)
(** *** Decoding *)
(* ---------------------------------------------------------------- *)

(** What the decoder does with a variable of Go type [T] when it is
    handed a JSON value that is not null: the variable's new content and
    the first error it saved.  (The decoder goes on after a type
    mismatch, so content and error may both change.)  For a type with an
    [UnmarshalJSON] method this is that method, for the others the
    decoder's reflection over the type. *)
Class Unmarshaler (T : Type) := unmarshal : value -> T -> T * option error.

Fixpoint digits_value (acc : Z) (s : string) : option Z :=
  match s with
  | EmptyString => Some acc
  | String.String c s' =>
      if is_digit c
      then digits_value (10 * acc + (Z.of_nat (nat_of_ascii c) - 48)) s'
      else None
  end.

(** [strconv.ParseInt(lit, 10, 64)] on a JSON number literal: [None]
    when the literal has a fraction or an exponent, or is out of the
    range of an [int64]. *)
Definition ParseInt (lit : string) : option Z :=
  let magnitude '(neg, ds) :=
    match ds with
    | EmptyString => None
    | _ => option_map (fun n => if neg : bool then (- n)%Z else n) (digits_value 0 ds)
    end in
  let n :=
    match lit with
    | String.String c ds =>
        if (c =? "-")%char then magnitude (true, ds) else magnitude (false, lit)
    | EmptyString => None
    end in
  match n with
  | Some z =>
      if ((- 2 ^ 63 <=? z) && (z <? 2 ^ 63))%Z then Some z else None
  | None => None
  end.

(** A Go [int] (64 bits wide). *)
#[global] Instance int_Unmarshaler : Unmarshaler Z := fun v t =>
  match v with
  | Null => (t, None)
  | Number lit =>
      match ParseInt lit with
      | Some n => (n, None)
      | None => (t, Some (UnmarshalTypeError ("number " ++ lit)))
      end
  | Bool _ => (t, Some (UnmarshalTypeError "bool"))
  | String _ => (t, Some (UnmarshalTypeError "string"))
  | Array _ => (t, Some (UnmarshalTypeError "array"))
  | Object _ => (t, Some (UnmarshalTypeError "object"))
  end.

(** A Go [bool]. *)
#[global] Instance bool_Unmarshaler : Unmarshaler bool := fun v t =>
  match v with
  | Null => (t, None)
  | Bool b => (b, None)
  | Number _ => (t, Some (UnmarshalTypeError "number"))
  | String _ => (t, Some (UnmarshalTypeError "string"))
  | Array _ => (t, Some (UnmarshalTypeError "array"))
  | Object _ => (t, Some (UnmarshalTypeError "object"))
  end.

(** [json.Unmarshal(data, &params)] where [params] is the array
    [[1]interface{}{args}] and [args] is a non-nil pointer to a variable
    of a Go type [T] that is not itself a pointer type (the host
    dispatcher passes a pointer to the method's argument struct).  [t] is
    the content of that variable; the result is its content afterwards
    and the error returned.

    - The text is checked as a whole first; on a syntax error nothing is
      stored.
    - The JSON null value unmarshals into an interface, map, pointer or
      slice by setting it to nil, and has no effect on any other Go
      type: the destination here is an array, so [null] does nothing and
      is no error.
    - A JSON array is decoded element by element into the Go array; the
      elements beyond the first are skipped, and the slots for which the
      JSON array has no element are set to their zero value.
    - Element 0 is decoded into an interface that holds a pointer: a
      value that is not null is stored through the pointer, while null
      (or no element) sets the interface slot of the local array to nil
      and leaves the variable alone.
    - Anything else does not fit an array: [UnmarshalTypeError]. *)
Definition Unmarshal {T : Type} `{Unmarshaler T} (data : RawMessage) (t : T)
  : T * option error :=
  match parse data with
  | None => (t, Some SyntaxError)
  | Some Null => (t, None)
  | Some (Array []) => (t, None)
  | Some (Array (Null :: _)) => (t, None)
  | Some (Array (x :: _)) => unmarshal x t
  | Some (Bool _) => (t, Some (UnmarshalTypeError "bool"))
  | Some (Number _) => (t, Some (UnmarshalTypeError "number"))
  | Some (String _) => (t, Some (UnmarshalTypeError "string"))
  | Some (Object _) => (t, Some (UnmarshalTypeError "object"))
  end.

(* ---------------------------------------------------------------- *)
(** *** Encoding *)
(* ---------------------------------------------------------------- *)

(** What [Marshal] makes of a Go value, before it is printed: the
    encoder's quoting of strings and its compaction of raw messages are
    not modelled, a document stands for its text. *)
#[warnings="-register-all"]
Inductive document : Type :=
| d_null
| d_bool (b : bool)
| d_number (lit : string)
| d_string (s : string)                      (* a Go string *)
| d_raw (m : RawMessage)                     (* a RawMessage, spliced in *)
| d_array (elems : list document)
| d_object (members : list (string * document)).

(** [Marshal] on a value of Go type [V]: a document, or the error of a
    value that cannot be encoded. *)
Class Marshaler (V : Type) := Marshal : V -> document + error.

#[global] Instance int_Marshaler : Marshaler Z :=
  fun n => inl (d_number (pretty n)).

#[global] Instance bool_Marshaler : Marshaler bool :=
  fun b => inl (d_bool b).

#[global] Instance string_Marshaler : Marshaler string :=
  fun s => inl (d_string s).

(** A [*RawMessage]: [null] for the nil pointer; otherwise the message
    itself, which the encoder checks when it compacts it. *)
#[global] Instance RawMessage_ptr_Marshaler : Marshaler (option RawMessage) :=
  fun p =>
    match p with
    | None => inl d_null
    | Some m =>
        if Valid m then inl (d_raw m)
        else inr (MarshalerError "invalid RawMessage")
    end.

(** A Go value the encoder refuses (a channel, a function, a NaN). *)
Inductive unsupported : Type := Unsupported.

#[global] Instance unsupported_Marshaler : Marshaler unsupported :=
  fun _ => inr (MarshalerError "unsupported type").

End json.

(* ================================================================== *)
(** ** [net/http]: the response writer *)
(* ================================================================== *)

Module http.

(** [type Header map[string][]string] *)
Abbreviation Header := (gmap string (list string)).

(** [h.Set(key, value)]: the key's values become the single [value].
    The key is stored as given; the codec's only key, [Content-Type], is
    already in canonical form. *)
Definition Header_Set (key val : string) (h : Header) : Header :=
  <[key := [val]]> h.

(** [h.Get(key)]: the first value of the key, or the empty string. *)
Definition Header_Get (key : string) (h : Header) : string :=
  match h !! key with
  | Some (v :: _) => v
  | _ => EmptyString
  end.

(** A [ResponseWriter] that records what it is given: the header map,
    and the bodies written so far, oldest first.  One encoded document
    (and its final newline) arrives in one [Write].  [broken] stands for
    a connection that is gone: [Write] then fails and records nothing. *)
Record ResponseWriter : Type := {
  header : Header;
  body : list json.document;
  broken : bool
}.

(** [w.Header().Set(key, value)] *)
Definition SetHeader (key val : string) (w : ResponseWriter) : ResponseWriter :=
  {| header := Header_Set key val (header w); body := body w; broken := broken w |}.

(** [w.Write(b)] for the text [b] of the document [doc] *)
Definition Write (w : ResponseWriter) (doc : json.document)
  : ResponseWriter * option error :=
  if broken w then (w, Some ErrWrite)
  else ({| header := header w; body := body w ++ [doc]; broken := broken w |}, None).

End http.

(** [json.NewEncoder(w).Encode(v)]: marshal [v]; when that fails nothing
    is written and the error is returned; otherwise the text goes to [w] in
    one [Write], whose error is returned. *)
Module Encoder.

Definition Encode {V : Type} `{json.Marshaler V} (w : http.ResponseWriter) (v : V)
  : http.ResponseWriter * option error :=
  match json.Marshal v with
  | inr e => (w, Some e)
  | inl doc => http.Write w doc
  end.

End Encoder.

(* ================================================================== *)
(** ** [server.go]: requests and responses *)
(* ================================================================== *)

(** [var null = json.RawMessage([]byte("null"))] *)
Definition null : json.RawMessage := "null".

(** [serverRequest]: a request as received.  A [*json.RawMessage] is an
    [option], the nil pointer being [None]; the decoder leaves [Params] and
    [Id] nil when the member is absent or is the literal [null]. *)
Record serverRequest : Type := {
  req_Method : string;                     (* `json:"method"` *)
  req_Params : option json.RawMessage;     (* `json:"data"` *)
  req_Id : option json.RawMessage;         (* `json:"tid"` *)
  req_Type : string;                       (* `json:"type"` *)
  req_Action : string                      (* `json:"action"` *)
}.

(** [serverResponse]; [R] is the Go type behind [Result interface{}]. *)
Record serverResponse (R : Type) : Type := {
  res_Result : R;                          (* `json:"result"` *)
  res_Id : option json.RawMessage;         (* `json:"tid"` *)
  res_Type : string;                       (* `json:"type"` *)
  res_Action : string;                     (* `json:"action"` *)
  res_Method : string                      (* `json:"method"` *)
}.
Arguments res_Result {R} _.
Arguments res_Id {R} _.
Arguments res_Type {R} _.
Arguments res_Action {R} _.
Arguments res_Method {R} _.

(** [serverErrorResponse]; [E] is the Go type behind [Error interface{}]. *)
Record serverErrorResponse (E : Type) : Type := {
  eres_Error : E;                          (* `json:"message"` *)
  eres_Id : option json.RawMessage;        (* `json:"tid"` *)
  eres_Type : string;                      (* `json:"type"` *)
  eres_Action : string;                    (* `json:"action"` *)
  eres_Method : string                     (* `json:"method"` *)
}.
Arguments eres_Error {E} _.
Arguments eres_Id {E} _.
Arguments eres_Type {E} _.
Arguments eres_Action {E} _.
Arguments eres_Method {E} _.

(** The encoder walks a struct's fields in the order of their declaration,
    under the names of their tags, and stops at the first field that
    fails. *)
#[global] Instance serverResponse_Marshaler {R : Type} `{json.Marshaler R}
  : json.Marshaler (serverResponse R) := fun res =>
  match json.Marshal (res_Result res) with
  | inr e => inr e
  | inl result =>
      match json.Marshal (res_Id res) with
      | inr e => inr e
      | inl tid =>
          inl (json.d_object
                 [("result", result);
                  ("tid", tid);
                  ("type", json.d_string (res_Type res));
                  ("action", json.d_string (res_Action res));
                  ("method", json.d_string (res_Method res))])
      end
  end.

#[global] Instance serverErrorResponse_Marshaler {E : Type} `{json.Marshaler E}
  : json.Marshaler (serverErrorResponse E) := fun res =>
  match json.Marshal (eres_Error res) with
  | inr e => inr e
  | inl message =>
      match json.Marshal (eres_Id res) with
      | inr e => inr e
      | inl tid =>
          inl (json.d_object
                 [("message", message);
                  ("tid", tid);
                  ("type", json.d_string (eres_Type res));
                  ("action", json.d_string (eres_Action res));
                  ("method", json.d_string (eres_Method res))])
      end
  end.

(* ================================================================== *)
(** ** [server.go]: [CodecRequest] *)
(* ================================================================== *)

(** [CodecRequest] decodes and encodes a single request.  [request] is
    never nil ([newCodecRequest] allocates it), so the struct is held in
    place. *)
Record CodecRequest : Type := {
  request : serverRequest;
  err : option error
}.

(** [c.request.Params = p] *)
Definition set_Params (p : option json.RawMessage) (c : CodecRequest) : CodecRequest :=
  {| request := {| req_Method := req_Method (request c);
                   req_Params := p;
                   req_Id := req_Id (request c);
                   req_Type := req_Type (request c);
                   req_Action := req_Action (request c) |};
     err := err c |}.

(** [c.err = e] *)
Definition set_err (e : option error) (c : CodecRequest) : CodecRequest :=
  {| request := request c; err := e |}.

(** [res.Id = p] *)
Definition set_res_Id {R : Type} (p : option json.RawMessage) (res : serverResponse R)
  : serverResponse R :=
  {| res_Result := res_Result res; res_Id := p; res_Type := res_Type res;
     res_Action := res_Action res; res_Method := res_Method res |}.

(** The methods have the pointer receiver [c *CodecRequest]: each takes the
    session and returns it as the call leaves it, before its results. *)

(** [Method] returns the RPC method for the current request, in the
    dotted notation [Service.Method]. *)
Definition Method (c : CodecRequest) : CodecRequest * string * option error :=
  match err c with
  | None => (c, req_Action (request c) ++ "." ++ req_Method (request c), None)
  | Some _ => (c, EmptyString, err c)
  end.

Definition missing_params : error :=
  errors.New "rpc: method request ill-formed: missing params field".

(** The [if]/[else] of [ReadRequest] (lines 108 to 113): the session as it
    leaves the statement, and the payload [*c.request.Params] that the
    next line reads. *)
Definition ReadRequest_params (c : CodecRequest) : CodecRequest * json.RawMessage :=
  match req_Params (request c) with
  | None => (set_Params (Some null) c, null)
  | Some data => (set_err (Some missing_params) c, data)
  end.

(** [ReadRequest] fills the request object for the RPC method.  [args] is
    the content of the variable the caller's pointer designates; the
    second result is its content afterwards. *)
Definition ReadRequest {T : Type} `{json.Unmarshaler T} (c : CodecRequest) (args : T)
  : CodecRequest * T * option error :=
  match err c with
  | None =>
      (* params := [1]interface{}{args}; json.Unmarshal below is the decoder
         at the destination &params *)
      let '(c1, data) := ReadRequest_params c in
      let '(args', e) := json.Unmarshal data args in
      let c2 := set_err e c1 in
      (c2, args', err c2)
  | Some _ => (c, args, err c)
  end.

Definition content_type : string := "Content-Type".
Definition json_utf8 : string := "application/json; charset=utf-8".

(** [WriteResponse] encodes the response and writes it to the
    [ResponseWriter].  [methodErr] is the error that resulted from calling
    the RPC method, or nil.  What [Encode] returns is dropped. *)
Definition WriteResponse {R : Type} `{json.Marshaler R}
    (c : CodecRequest) (w : http.ResponseWriter) (reply : R) (methodErr : option error)
  : CodecRequest * http.ResponseWriter * option error :=
  match err c with
  | Some _ => (c, w, err c)
  | None =>
      match methodErr with
      | Some me =>
          let res := {| eres_Error := Error me;
                        eres_Id := req_Id (request c);
                        eres_Action := req_Action (request c);
                        eres_Type := "exception";
                        eres_Method := req_Method (request c) |} in
          let w1 := http.SetHeader content_type json_utf8 w in
          let '(w2, _) := Encoder.Encode w1 res in
          (c, w2, None)
      | None =>
          let res := {| res_Result := reply;
                        res_Id := req_Id (request c);
                        res_Action := req_Action (request c);
                        res_Type := req_Type (request c);
                        res_Method := req_Method (request c) |} in
          match req_Id (request c) with
          | None =>
              (* Id is null for notifications and they don't have a response. *)
              let res' := set_res_Id (Some null) res in
              (c, w, None)
          | Some _ =>
              let w1 := http.SetHeader content_type json_utf8 w in
              let '(w2, _) := Encoder.Encode w1 res in
              (c, w2, None)
          end
      end
  end.

(* ================================================================== *)
(** ** Concrete sessions used by the examples *)
(* ================================================================== *)

(** The session for
    [{"action":"Calc","method":"Add","data":<data>,"tid":<tid>,"type":"rpc"}]. *)
Definition calc_add (data tid : option json.RawMessage) : CodecRequest :=
  {| request := {| req_Method := "Add"; req_Params := data; req_Id := tid;
                   req_Type := "rpc"; req_Action := "Calc" |};
     err := None |}.

(** The session of a body that was not JSON. *)
Definition malformed : CodecRequest :=
  {| request := {| req_Method := ""; req_Params := None; req_Id := None;
                   req_Type := ""; req_Action := "" |};
     err := Some SyntaxError |}.

Definition fresh_writer : http.ResponseWriter :=
  {| http.header := ∅; http.body := []; http.broken := false |}.

Definition broken_writer : http.ResponseWriter :=
  {| http.header := ∅; http.body := []; http.broken := true |}.

(* ================================================================== *)
(** ** [io] and [unicode/utf8] *)
(* ================================================================== *)

Module io.
(** [var EOF = errors.New("EOF")] *)
Definition EOF : error := errors.New "EOF".
(** [var ErrUnexpectedEOF = errors.New("unexpected EOF")] *)
Definition ErrUnexpectedEOF : error := errors.New "unexpected EOF".
End io.

Module utf8.

Definition byte (c : ascii) : N := N_of_ascii c.

Definition between (lo hi : N) (c : ascii) : bool :=
  (lo <=? byte c)%N && (byte c <=? hi)%N.

(** [EncodeRune]: the UTF-8 encoding of a code point; the replacement
    character U+FFFD for a surrogate or a value above U+10FFFF. *)
Definition RuneError : N := 0xFFFD.

Definition cont (r : N) : ascii := ascii_of_N (0x80 + N.land r 0x3F).

Definition encode3 (r : N) : string :=
  String (ascii_of_N (0xE0 + N.shiftr r 12))
    (String (cont (N.shiftr r 6)) (String (cont r) EmptyString)).

Definition EncodeRune (r : N) : string :=
  if (r <=? 0x7F)%N then String (ascii_of_N r) EmptyString
  else if (r <=? 0x7FF)%N then
    String (ascii_of_N (0xC0 + N.shiftr r 6)) (String (cont r) EmptyString)
  else if (0x10FFFF <? r)%N || ((0xD800 <=? r)%N && (r <=? 0xDFFF)%N) then
    encode3 RuneError
  else if (r <=? 0xFFFF)%N then encode3 r
  else
    String (ascii_of_N (0xF0 + N.shiftr r 18))
      (String (cont (N.shiftr r 12))
         (String (cont (N.shiftr r 6)) (String (cont r) EmptyString))).

(** [DecodeRune] on a text that starts with a byte of 0x80 or more: the
    bytes of the well-formed encoding at its front and what follows them,
    or [None] where [DecodeRune] returns [(RuneError, 1)]. *)
Definition well_formed (s : string) : option (string * string) :=
  match s with
  | String b0 (String b1 s2) =>
      if between 0xC2 0xDF b0 then
        if between 0x80 0xBF b1 then Some (String b0 (String b1 EmptyString), s2)
        else None
      else
        let second_ok :=
          if (byte b0 =? 0xE0)%N then between 0xA0 0xBF b1
          else if (byte b0 =? 0xED)%N then between 0x80 0x9F b1
          else if (byte b0 =? 0xF0)%N then between 0x90 0xBF b1
          else if (byte b0 =? 0xF4)%N then between 0x80 0x8F b1
          else between 0x80 0xBF b1 in
        match s2 with
        | String b2 s3 =>
            if between 0xE0 0xEF b0 then
              if second_ok && between 0x80 0xBF b2
              then Some (String b0 (String b1 (String b2 EmptyString)), s3)
              else None
            else if between 0xF0 0xF4 b0 then
              match s3 with
              | String b3 s4 =>
                  if second_ok && between 0x80 0xBF b2 && between 0x80 0xBF b3
                  then Some (String b0 (String b1 (String b2 (String b3 EmptyString))), s4)
                  else None
              | EmptyString => None
              end
            else None
        | EmptyString => None
        end
  | _ => None
  end.

End utf8.

(* ================================================================== *)
(** ** [encoding/json]: the decoder of a request body *)
(* ================================================================== *)

Module Decoder.

(** The value of a hexadecimal digit. *)
Definition hex_value (c : ascii) : option N :=
  let n := utf8.byte c in
  if utf8.between 48 57 c then Some (n - 48)%N
  else if utf8.between 97 102 c then Some (n - 87)%N
  else if utf8.between 65 70 c then Some (n - 55)%N
  else None.

(** [getu4]: the code unit of a backslash-u escape at the front of the
    text. *)
Definition getu4 (s : string) : option N :=
  match s with
  | String bs (String u (String h1 (String h2 (String h3 (String h4 _))))) =>
      if (bs =? json.backslash)%char && (u =? "u")%char then
        match hex_value h1, hex_value h2, hex_value h3, hex_value h4 with
        | Some a, Some b, Some c, Some d => Some (((a * 16 + b) * 16 + c) * 16 + d)%N
        | _, _, _, _ => None
        end
      else None
  | _ => None
  end.

Fixpoint drop (n : nat) (s : string) : string :=
  match n, s with
  | O, _ => s
  | S n', String _ s' => drop n' s'
  | S _, EmptyString => EmptyString
  end.

(** The byte a one-letter escape stands for. *)
Definition escaped (e : ascii) : ascii :=
  if (e =? "b")%char then "008"%char
  else if (e =? "f")%char then "012"%char
  else if (e =? "n")%char then "010"%char
  else if (e =? "r")%char then "013"%char
  else if (e =? "t")%char then "009"%char
  else e.

(** [unquoteBytes] on the characters between the quotes of a string
    literal that the scanner accepted: escapes are expanded, a surrogate
    pair becomes one code point, a lone surrogate and every byte that is
    not part of well-formed UTF-8 become U+FFFD. *)
Fixpoint unquote_from (fuel : nat) (s : string) : string :=
  match fuel with
  | O => EmptyString
  | S fuel' =>
      match s with
      | EmptyString => EmptyString
      | String c s1 =>
          if (c =? json.backslash)%char then
            match s1 with
            | EmptyString => EmptyString
            | String e s2 =>
                if (e =? "u")%char then
                  match getu4 s with
                  | Some rr =>
                      let s3 := drop 6 s in
                      if (0xD800 <=? rr)%N && (rr <? 0xE000)%N then
                        match getu4 s3 with
                        | Some rr1 =>
                            if (rr <? 0xDC00)%N && (0xDC00 <=? rr1)%N && (rr1 <? 0xE000)%N
                            then utf8.EncodeRune
                                   (((rr - 0xD800) * 1024 + (rr1 - 0xDC00)) + 0x10000)%N
                                 ++ unquote_from fuel' (drop 6 s3)
                            else utf8.EncodeRune utf8.RuneError ++ unquote_from fuel' s3
                        | None => utf8.EncodeRune utf8.RuneError ++ unquote_from fuel' s3
                        end
                      else utf8.EncodeRune rr ++ unquote_from fuel' s3
                  | None => EmptyString
                  end
                else String (escaped e) (unquote_from fuel' s2)
            end
          else if (utf8.byte c <? 0x80)%N then String c (unquote_from fuel' s1)
          else
            match utf8.well_formed s with
            | Some (seq, rest) => seq ++ unquote_from fuel' rest
            | None => utf8.EncodeRune utf8.RuneError ++ unquote_from fuel' s1
            end
      end
  end.

Definition unquote (s : string) : string := unquote_from (String.length s) s.

(** ASCII letters in lower case, every other byte as it is. *)
Definition lower (c : ascii) : ascii :=
  if utf8.between 65 90 c then ascii_of_N (utf8.byte c + 32) else c.

Fixpoint fold (s : string) : string :=
  match s with
  | String c s' => String (lower c) (fold s')
  | EmptyString => EmptyString
  end.

(** The fields of [serverRequest], by their tags. *)
Inductive field : Type := Method_ | Params_ | Id_ | Type_ | Action_.

(** The field an object key designates: the field whose tag is the key,
    letter case apart.  (The five tags are lower-case ASCII letters, none
    of them k or s, the two letters that have a non-ASCII fold.) *)
Definition field_of_key (key : string) : option field :=
  let k := fold key in
  if (k =? "method")%string then Some Method_
  else if (k =? "data")%string then Some Params_
  else if (k =? "tid")%string then Some Id_
  else if (k =? "type")%string then Some Type_
  else if (k =? "action")%string then Some Action_
  else None.

(** Why the scanner did not reach the end of a value. *)
Inductive outcome : Type :=
| Done (rest : string)   (* it did; what follows the value *)
| Invalid                (* a byte it refuses *)
| Truncated.             (* the input ends inside the value *)

Definition and_then (o : outcome) (k : string -> outcome) : outcome :=
  match o with
  | Done rest => k rest
  | Invalid => Invalid
  | Truncated => Truncated
  end.

Fixpoint string_outcome (s : string) : outcome :=
  match s with
  | EmptyString => Truncated
  | String c s1 =>
      if (c =? json.dquote)%char then Done s1
      else if (c =? json.backslash)%char then
        match s1 with
        | EmptyString => Truncated
        | String e s2 =>
            if json.is_escape e then string_outcome s2
            else if (e =? "u")%char then
              match s2 with
              | EmptyString => Truncated
              | String h1 t1 =>
                  if negb (json.is_hex h1) then Invalid else
                  match t1 with
                  | EmptyString => Truncated
                  | String h2 t2 =>
                      if negb (json.is_hex h2) then Invalid else
                      match t2 with
                      | EmptyString => Truncated
                      | String h3 t3 =>
                          if negb (json.is_hex h3) then Invalid else
                          match t3 with
                          | EmptyString => Truncated
                          | String h4 t4 =>
                              if negb (json.is_hex h4) then Invalid
                              else string_outcome t4
                          end
                      end
                  end
              end
            else Invalid
        end
      else if (nat_of_ascii c <? 32)%nat then Invalid
      else string_outcome s1
  end.

Definition digits_outcome (s : string) : outcome :=
  match s with
  | EmptyString => Truncated
  | String c _ => if json.is_digit c then Done (snd (json.span_digits s)) else Invalid
  end.

Definition magnitude_outcome (s : string) : outcome :=
  match s with
  | EmptyString => Truncated
  | String c s' => if (c =? "0")%char then Done s' else digits_outcome s
  end.

Definition number_outcome (s : string) : outcome :=
  and_then
    (match s with
     | EmptyString => Truncated
     | String c s' => if (c =? "-")%char then magnitude_outcome s' else magnitude_outcome s
     end)
    (fun r1 =>
       and_then
         (match r1 with
          | String c r' => if (c =? ".")%char then digits_outcome r' else Done r1
          | EmptyString => Done r1
          end)
         (fun r2 =>
            match r2 with
            | String e r' =>
                if (e =? "e")%char || (e =? "E")%char then
                  match r' with
                  | String c r'' =>
                      if (c =? "+")%char || (c =? "-")%char
                      then digits_outcome r'' else digits_outcome r'
                  | EmptyString => Truncated
                  end
                else Done r2
            | EmptyString => Done r2
            end)).

Fixpoint prefix_outcome (p s : string) : outcome :=
  match p, s with
  | EmptyString, _ => Done s
  | String a p', String b s' => if (a =? b)%char then prefix_outcome p' s' else Invalid
  | String _ _, EmptyString => Truncated
  end.

Fixpoint value_outcome (fuel : nat) (depth : N) (s : string) : outcome :=
  match fuel with
  | O => Invalid
  | S fuel' =>
      match s with
      | EmptyString => Truncated
      | String c s' =>
          if (c =? "[")%char then
            if (json.maxNestingDepth <? depth + 1)%N then Invalid
            else
              match json.skip_space s' with
              | String c1 rest =>
                  if (c1 =? "]")%char then Done rest
                  else elements_outcome fuel' (depth + 1)%N (String c1 rest)
              | EmptyString => Truncated
              end
          else if (c =? "{")%char then
            if (json.maxNestingDepth <? depth + 1)%N then Invalid
            else
              match json.skip_space s' with
              | String c1 rest =>
                  if (c1 =? "}")%char then Done rest
                  else members_outcome fuel' (depth + 1)%N (String c1 rest)
              | EmptyString => Truncated
              end
          else if (c =? json.dquote)%char then string_outcome s'
          else if (c =? "n")%char then prefix_outcome "ull" s'
          else if (c =? "t")%char then prefix_outcome "rue" s'
          else if (c =? "f")%char then prefix_outcome "alse" s'
          else number_outcome s
      end
  end

with elements_outcome (fuel : nat) (depth : N) (s : string) : outcome :=
  match fuel with
  | O => Invalid
  | S fuel' =>
      and_then (value_outcome fuel' depth s)
        (fun r =>
           match json.skip_space r with
           | String c r' =>
               if (c =? ",")%char then elements_outcome fuel' depth (json.skip_space r')
               else if (c =? "]")%char then Done r'
               else Invalid
           | EmptyString => Truncated
           end)
  end

with members_outcome (fuel : nat) (depth : N) (s : string) : outcome :=
  match fuel with
  | O => Invalid
  | S fuel' =>
      match s with
      | String q s' =>
          if (q =? json.dquote)%char then
            and_then (string_outcome s')
              (fun r =>
                 match json.skip_space r with
                 | String colon r1 =>
                     if (colon =? ":")%char then
                       and_then (value_outcome fuel' depth (json.skip_space r1))
                         (fun r2 =>
                            match json.skip_space r2 with
                            | String c r3 =>
                                if (c =? ",")%char
                                then members_outcome fuel' depth (json.skip_space r3)
                                else if (c =? "}")%char then Done r3
                                else Invalid
                            | EmptyString => Truncated
                            end)
                     else Invalid
                 | EmptyString => Truncated
                 end)
          else Invalid
      | EmptyString => Truncated
      end
  end.

(** The first [n] bytes of a text. *)
Fixpoint take (n : nat) (s : string) : string :=
  match n, s with
  | S n', String c s' => String c (take n' s')
  | _, _ => EmptyString
  end.

(** The text of the value that was read from [s] up to [rest]. *)
Definition text_before (s rest : string) : string :=
  take (String.length s - String.length rest) s.

(** The members of the object of the body after its opening brace, each
    with the text of its value: what [parse_members] reads, and for every
    value the bytes it was read from, as [d.object] hands them to
    [RawMessage.UnmarshalJSON]. *)
Fixpoint scan_members (fuel : nat) (s : string)
  : option (list (string * json.value * json.RawMessage) * string) :=
  match fuel with
  | O => None
  | S fuel' =>
      match s with
      | String q s' =>
          if (q =? json.dquote)%char then
            match json.scan_string s' with
            | Some (key, r) =>
                match json.skip_space r with
                | String colon r1 =>
                    if (colon =? ":")%char then
                      match json.parse_value fuel' 1 (json.skip_space r1) with
                      | Some (v, r2) =>
                          let member := (key, v, text_before (json.skip_space r1) r2) in
                          match json.skip_space r2 with
                          | String c r3 =>
                              if (c =? ",")%char then
                                match scan_members fuel' (json.skip_space r3) with
                                | Some (ms, rest) => Some (member :: ms, rest)
                                | None => None
                                end
                              else if (c =? "}")%char then Some ([member], r3)
                              else None
                          | EmptyString => None
                          end
                      | None => None
                      end
                    else None
                | EmptyString => None
                end
            | None => None
            end
          else None
      | EmptyString => None
      end
  end.

(** [d.value] at a field of Go type [string]: a JSON string is unquoted
    and stored, [null] changes nothing, anything else is a type error and
    the field keeps what it held. *)
Definition store_string (v : json.value) (old : string) : string * option error :=
  match v with
  | json.String raw => (unquote raw, None)
  | json.Null => (old, None)
  | json.Bool _ => (old, Some (UnmarshalTypeError "bool"))
  | json.Number _ => (old, Some (UnmarshalTypeError "number"))
  | json.Array _ => (old, Some (UnmarshalTypeError "array"))
  | json.Object _ => (old, Some (UnmarshalTypeError "object"))
  end.

(** [d.value] at a field of Go type [*json.RawMessage]: [null] sets the
    pointer to nil, any other value is kept as the bytes it was read
    from. *)
Definition store_raw (v : json.value) (text : json.RawMessage)
  : option json.RawMessage :=
  match v with
  | json.Null => None
  | _ => Some text
  end.

(** [d.saveError]: the first error is the one that is returned. *)
Definition saveError (saved e : option error) : option error :=
  match saved with
  | Some _ => saved
  | None => e
  end.

(** One member of the object: the field its key designates is stored,
    a key that designates none is skipped. *)
Definition store_member (st : serverRequest * option error)
    (member : string * json.value * json.RawMessage) : serverRequest * option error :=
  let '(req, saved) := st in
  let '(key, v, text) := member in
  match field_of_key (unquote key) with
  | Some Method_ =>
      let '(x, e) := store_string v (req_Method req) in
      ({| req_Method := x; req_Params := req_Params req; req_Id := req_Id req;
          req_Type := req_Type req; req_Action := req_Action req |}, saveError saved e)
  | Some Params_ =>
      ({| req_Method := req_Method req; req_Params := store_raw v text;
          req_Id := req_Id req; req_Type := req_Type req;
          req_Action := req_Action req |}, saved)
  | Some Id_ =>
      ({| req_Method := req_Method req; req_Params := req_Params req;
          req_Id := store_raw v text; req_Type := req_Type req;
          req_Action := req_Action req |}, saved)
  | Some Type_ =>
      let '(x, e) := store_string v (req_Type req) in
      ({| req_Method := req_Method req; req_Params := req_Params req; req_Id := req_Id req;
          req_Type := x; req_Action := req_Action req |}, saveError saved e)
  | Some Action_ =>
      let '(x, e) := store_string v (req_Action req) in
      ({| req_Method := req_Method req; req_Params := req_Params req; req_Id := req_Id req;
          req_Type := req_Type req; req_Action := x |}, saveError saved e)
  | None => st
  end.

(** [d.value] at a struct, for a value that is not an object: [null] has
    no effect and is no error, any other value is a type error. *)
Definition kind_error (v : json.value) : option error :=
  match v with
  | json.Null => None
  | json.Bool _ => Some (UnmarshalTypeError "bool")
  | json.Number _ => Some (UnmarshalTypeError "number")
  | json.String _ => Some (UnmarshalTypeError "string")
  | json.Array _ => Some (UnmarshalTypeError "array")
  | json.Object _ => Some (UnmarshalTypeError "object")
  end.

(** The scanner's verdict on a text that starts with the first byte of a
    value.  The fuel is more than the descent can use: it goes down by at
    most two where the text gets shorter by a byte. *)
Definition verdict (s : string) : outcome :=
  value_outcome (S (2 * String.length s)) 0 s.

(** The error of [readValue] on a body whose first value the scanner did
    not finish. *)
Definition scan_error (s : string) : error :=
  match verdict s with
  | Truncated => io.ErrUnexpectedEOF
  | _ => SyntaxError
  end.

(** [json.NewDecoder(body).Decode(req)] for a body that is read to its
    end, into the [serverRequest] [req]: what [req] holds afterwards and
    the error returned.

    - [readValue] skips leading space and scans one value; the bytes that
      follow the value are not looked at.  No value at all is [io.EOF], an
      unfinished one [io.ErrUnexpectedEOF], a refused byte a syntax error;
      nothing is stored then.
    - An object is decoded member by member, in the order of the text.
    - [null] has no effect on a struct; any other value is a type error. *)
Definition Decode (body : string) (req : serverRequest) : serverRequest * option error :=
  let s := json.skip_space body in
  let fuel := S (String.length body) in
  match s with
  | EmptyString => (req, Some io.EOF)
  | String c s' =>
      if (c =? "{")%char then
        match json.skip_space s' with
        | String c1 r1 =>
            if (c1 =? "}")%char then (req, None)
            else
              match scan_members (String.length body) (String c1 r1) with
              | Some (members, _) => fold_left store_member members (req, None)
              | None => (req, Some (scan_error s))
              end
        | EmptyString => (req, Some io.ErrUnexpectedEOF)
        end
      else
        match json.parse_value fuel 0 s with
        | Some (v, _) => (req, kind_error v)
        | None => (req, Some (scan_error s))
        end
  end.

End Decoder.

(* ================================================================== *)
(** ** [server.go]: the codec and [newCodecRequest] *)
(* ================================================================== *)

(** The request as [newCodecRequest] uses it: its body, which is the bytes
    the client sent, and whether [Close] has been called on it. *)
Record Request : Type := {
  sent : string;
  closed : bool
}.

(** A request as the server hands it to a handler. *)
Definition incoming (body : string) : Request := {| sent := body; closed := false |}.

(** [http.ErrBodyReadAfterClose] *)
Definition ErrBodyReadAfterClose : error :=
  errors.New "http: invalid Read on closed Body".

(** [new(serverRequest)] *)
Definition new_serverRequest : serverRequest :=
  {| req_Method := ""; req_Params := None; req_Id := None;
     req_Type := ""; req_Action := "" |}.

(** [newCodecRequest] returns a new [CodecRequest]: it decodes the request
    body, closes it, and keeps the decoder's error in the session.  The
    request is returned as the call leaves it. *)
Definition newCodecRequest (r : Request) : Request * CodecRequest :=
  let req := new_serverRequest in
  let '(req', e) :=
    if closed r then (req, Some ErrBodyReadAfterClose)
    else Decoder.Decode (sent r) req in
  ({| sent := sent r; closed := true |}, {| request := req'; err := e |}).

(** [Codec] creates a [CodecRequest] to process each request. *)
Inductive Codec : Type := mkCodec.

(** [NewCodec] returns a new JSON codec. *)
Definition NewCodec : Codec := mkCodec.

(** [NewRequest] returns a [CodecRequest]. *)
Definition NewRequest (c : Codec) (r : Request) : Request * CodecRequest :=
  newCodecRequest r.

(** A string literal of a JSON text. *)
Definition quoted (s : string) : string :=
  String json.dquote s ++ String json.dquote "".

(** The body of a call of [Calc.Add]: the session it decodes to is
    [calc_add] with the payload [[ 1, 2 ]] and the [tid] 1. *)
Definition calc_add_body : string :=
  "{ " ++ quoted "action" ++ ": " ++ quoted "Calc" ++ ", "
  ++ quoted "method" ++ ": " ++ quoted "Add" ++ ", "
  ++ quoted "data" ++ ": [ 1, 2 ], "
  ++ quoted "type" ++ ": " ++ quoted "rpc" ++ ", "
  ++ quoted "tid" ++ ": 1 }".

(** The body of a notification: no [data], no [tid]. *)
Definition ping_body : string :=
  "{" ++ quoted "action" ++ ":" ++ quoted "Calc" ++ ","
  ++ quoted "method" ++ ":" ++ quoted "Ping" ++ "}".

(* ================================================================== *)
(** ** Predicates of the statements *)
(* ================================================================== *)

(** The bytes at which a number literal stops. *)
Definition stops (r : string) : Prop :=
  match r with
  | EmptyString => True
  | String c _ =>
      json.is_digit c = false /\ c <> "."%char /\ c <> "e"%char /\ c <> "E"%char
  end.

(** A text that does not start with a digit. *)
Definition no_digit (r : string) : Prop :=
  match r with
  | EmptyString => True
  | String c _ => json.is_digit c = false
  end.

(** The first byte of a text is not [c]. *)
Definition not_first (c : ascii) (r : string) : Prop :=
  match r with
  | EmptyString => True
  | String x _ => x <> c
  end.

(** What may follow a value for the descent to read it the same way: after
    a number, a byte that cannot continue it. *)
Definition follows (v : json.value) (r : string) : Prop :=
  match v with
  | json.Number _ => stops r
  | _ => True
  end.

(** A raw message as the decoder leaves it: nil, or the text of a JSON
    value that is not null. *)
Definition decoded_raw (p : option json.RawMessage) : Prop :=
  match p with
  | Some m => exists v, json.parse m = Some v /\ v <> json.Null
  | None => True
  end.

(** A member whose value the field of its key can hold: [data] and [tid]
    hold any value, the three strings a string or null; a member that
    designates no field is skipped. *)
Definition member_fits (m : string * json.value) : Prop :=
  match Decoder.field_of_key (Decoder.unquote (fst m)) with
  | Some Decoder.Method_ | Some Decoder.Type_ | Some Decoder.Action_ =>
      match snd m with
      | json.String _ | json.Null => True
      | _ => False
      end
  | _ => True
  end.

(** The verdict is [Done] exactly where the descent returns a value, with
    the same rest. *)
Definition agree {A : Type} (parsed : option (A * string)) (o : Decoder.outcome) : Prop :=
  match parsed with
  | Some (_, rest) => o = Decoder.Done rest
  | None => o = Decoder.Invalid \/ o = Decoder.Truncated
  end.

(* ================================================================== *)
(** ** Facts about the library model *)
(* ================================================================== *)

(** *** The scanner consumes what it accepts *)

Lemma skip_space_length (s : string) :
  String.length (json.skip_space s) <= String.length s.
Proof.
  induction s as [| c s IH]; simpl; [lia |].
  destruct (json.isSpace c); simpl; lia.
Qed.

Lemma span_digits_length (s ds rest : string) :
  json.span_digits s = (ds, rest) ->
  String.length s = String.length ds + String.length rest.
Proof.
  revert ds rest. induction s as [| c s IH]; simpl; intros ds rest Hs.
  - injection Hs as <- <-. reflexivity.
  - destruct (json.is_digit c).
    + destruct (json.span_digits s) as [ds' rest'].
      injection Hs as <- <-. simpl. rewrite (IH ds' rest' eq_refl). lia.
    + injection Hs as <- <-. reflexivity.
Qed.

Lemma scan_digits1_length (s ds rest : string) :
  json.scan_digits1 s = Some (ds, rest) ->
  String.length rest < String.length s.
Proof.
  unfold json.scan_digits1. destruct (json.span_digits s) as [ds' rest'] eqn:Hs.
  apply span_digits_length in Hs.
  destruct ds' as [| c ds']; [discriminate |].
  intros [= <- <-]. simpl in Hs. lia.
Qed.

Lemma scan_magnitude_length (s ds rest : string) :
  json.scan_magnitude s = Some (ds, rest) ->
  String.length rest < String.length s.
Proof.
  unfold json.scan_magnitude. destruct s as [| c s']; [discriminate |].
  destruct (c =? "0")%char.
  - intros [= _ <-]. simpl. lia.
  - apply scan_digits1_length.
Qed.

Lemma scan_int_length (s lit rest : string) :
  json.scan_int s = Some (lit, rest) ->
  String.length rest < String.length s.
Proof.
  unfold json.scan_int. destruct s as [| c s']; [discriminate |].
  destruct (c =? "-")%char.
  - destruct (json.scan_magnitude s') as [[ds r] |] eqn:Hm; [| discriminate].
    intros [= _ <-]. apply scan_magnitude_length in Hm. simpl. lia.
  - apply scan_magnitude_length.
Qed.

Lemma scan_frac_length (s lit rest : string) :
  json.scan_frac s = Some (lit, rest) ->
  String.length rest <= String.length s.
Proof.
  unfold json.scan_frac. destruct s as [| c s'].
  - intros [= _ <-]. reflexivity.
  - destruct (c =? ".")%char.
    + destruct (json.scan_digits1 s') as [[ds r] |] eqn:Hds; [| discriminate].
      intros [= _ <-]. apply scan_digits1_length in Hds. simpl. lia.
    + intros [= _ <-]. reflexivity.
Qed.

Lemma scan_exp_length (s lit rest : string) :
  json.scan_exp s = Some (lit, rest) ->
  String.length rest <= String.length s.
Proof.
  unfold json.scan_exp. destruct s as [| e s'].
  - intros [= _ <-]. reflexivity.
  - destruct ((e =? "e")%char || (e =? "E")%char).
    + destruct s' as [| c s2].
      * destruct (json.scan_digits1 "") as [[ds r] |] eqn:Hds; [| discriminate].
        intros [= _ <-]. apply scan_digits1_length in Hds. simpl in *. lia.
      * destruct ((c =? "+")%char || (c =? "-")%char).
        -- destruct (json.scan_digits1 s2) as [[ds r] |] eqn:Hds; [| discriminate].
           intros [= _ <-]. apply scan_digits1_length in Hds. simpl in *. lia.
        -- destruct (json.scan_digits1 (String c s2)) as [[ds r] |] eqn:Hds; [| discriminate].
           intros [= _ <-]. apply scan_digits1_length in Hds. simpl in *. lia.
    + intros [= _ <-]. reflexivity.
Qed.

Lemma scan_number_length (s lit rest : string) :
  json.scan_number s = Some (lit, rest) ->
  String.length rest < String.length s.
Proof.
  unfold json.scan_number.
  destruct (json.scan_int s) as [[i r1] |] eqn:Hi; [| discriminate].
  destruct (json.scan_frac r1) as [[f r2] |] eqn:Hf; [| discriminate].
  destruct (json.scan_exp r2) as [[e r3] |] eqn:He; [| discriminate].
  intros [= _ <-].
  apply scan_int_length in Hi. apply scan_frac_length in Hf.
  apply scan_exp_length in He. lia.
Qed.

Lemma strip_prefix_length (p s rest : string) :
  json.strip_prefix p s = Some rest ->
  String.length rest <= String.length s.
Proof.
  revert s. induction p as [| a p IH]; intros s; simpl.
  - intros [= <-]. reflexivity.
  - destruct s as [| b s']; [discriminate |].
    destruct (a =? b)%char; [| discriminate].
    intros H. apply IH in H. simpl. lia.
Qed.

Lemma scan_string_length (s body rest : string) :
  json.scan_string s = Some (body, rest) ->
  String.length rest < String.length s.
Proof.
  remember (String.length s) as n eqn:Hn.
  assert (Hle : String.length s <= n) by lia. clear Hn.
  revert s body rest Hle.
  induction n as [| n IH]; intros s body rest Hle.
  - destruct s; [discriminate | simpl in Hle; lia].
  - destruct s as [| c s1]; [discriminate |]. simpl in Hle. simpl.
    destruct (c =? json.dquote)%char.
    { intros [= _ <-]. lia. }
    destruct (c =? json.backslash)%char.
    { destruct s1 as [| e s2]; [discriminate |]. simpl in Hle.
      destruct (json.is_escape e).
      { destruct (json.scan_string s2) as [[b r] |] eqn:Hs2; [| discriminate].
        intros [= _ <-]. apply IH in Hs2; simpl; lia. }
      destruct (e =? "u")%char; [| discriminate].
      destruct s2 as [| h1 [| h2 [| h3 [| h4 s3]]]]; try discriminate.
      destruct (json.is_hex h1 && json.is_hex h2 && json.is_hex h3 && json.is_hex h4);
        [| discriminate].
      destruct (json.scan_string s3) as [[b r] |] eqn:Hs3; [| discriminate].
      intros [= _ <-]. simpl in Hle. apply IH in Hs3; simpl; lia. }
    destruct (nat_of_ascii c <? 32)%nat; [discriminate |].
    destruct (json.scan_string s1) as [[b r] |] eqn:Hs1; [| discriminate].
    intros [= _ <-]. apply IH in Hs1; lia.
Qed.

(** One more unit of fuel: what the descent returns with fuel [n] it
    returns with any fuel that is at least the number of bytes it
    consumed. *)
Section Fuel.
#[local] Arguments json.strip_prefix : simpl never.
#[local] Arguments json.scan_string : simpl never.
#[local] Arguments json.scan_number : simpl never.
#[local] Arguments json.skip_space : simpl never.

Variable n : nat.
Hypothesis IHv :
  forall d s v rest,
    json.parse_value n d s = Some (v, rest) ->
    String.length rest < String.length s
    /\ forall m, String.length s - String.length rest <= m ->
                 json.parse_value m d s = Some (v, rest).
Hypothesis IHe :
  forall d s vs rest,
    json.parse_elements n d s = Some (vs, rest) ->
    String.length rest < String.length s
    /\ forall m, String.length s - String.length rest <= m ->
                 json.parse_elements m d s = Some (vs, rest).
Hypothesis IHm :
  forall d s ms rest,
    json.parse_members n d s = Some (ms, rest) ->
    String.length rest < String.length s
    /\ forall m, String.length s - String.length rest <= m ->
                 json.parse_members m d s = Some (ms, rest).

Lemma enough_value_step :
  forall d s v rest,
    json.parse_value (S n) d s = Some (v, rest) ->
    String.length rest < String.length s
    /\ forall m, String.length s - String.length rest <= m ->
                 json.parse_value m d s = Some (v, rest).
Proof.
  intros d s v rest Hp. simpl in Hp.
  destruct s as [| c s']; [discriminate |].
  destruct (c =? "[")%char eqn:Hc1.
  { destruct (json.maxNestingDepth <? d + 1)%N eqn:Hd; [discriminate |].
    pose proof (skip_space_length s') as Hws.
    destruct (json.skip_space s') as [| c1 r1] eqn:Hs1; [discriminate |].
    destruct (c1 =? "]")%char eqn:Hc2.
    - injection Hp as <- <-. split; [simpl in *; lia |].
      intros m Hm. destruct m as [| m']; [simpl in *; lia |].
      simpl. rewrite Hc1, Hd, Hs1, Hc2. reflexivity.
    - destruct (json.parse_elements n (d + 1) (String c1 r1)) as [[vs r] |] eqn:He;
        [| discriminate].
      injection Hp as <- <-. destruct (IHe _ _ _ _ He) as [Hlen Hfuel].
      split; [simpl in *; lia |].
      intros m Hm. destruct m as [| m']; [simpl in *; lia |].
      simpl. rewrite Hc1, Hd, Hs1, Hc2.
      rewrite Hfuel; [reflexivity | simpl in *; lia]. }
  destruct (c =? "{")%char eqn:Hc2.
  { destruct (json.maxNestingDepth <? d + 1)%N eqn:Hd; [discriminate |].
    pose proof (skip_space_length s') as Hws.
    destruct (json.skip_space s') as [| c1 r1] eqn:Hs1; [discriminate |].
    destruct (c1 =? "}")%char eqn:Hc3.
    - injection Hp as <- <-. split; [simpl in *; lia |].
      intros m Hm. destruct m as [| m']; [simpl in *; lia |].
      simpl. rewrite Hc1, Hc2, Hd, Hs1, Hc3. reflexivity.
    - destruct (json.parse_members n (d + 1) (String c1 r1)) as [[ms r] |] eqn:He;
        [| discriminate].
      injection Hp as <- <-. destruct (IHm _ _ _ _ He) as [Hlen Hfuel].
      split; [simpl in *; lia |].
      intros m Hm. destruct m as [| m']; [simpl in *; lia |].
      simpl. rewrite Hc1, Hc2, Hd, Hs1, Hc3.
      rewrite Hfuel; [reflexivity | simpl in *; lia]. }
  assert (Hscalar : forall m, json.parse_value (S m) d (String c s')
                              = json.parse_value (S n) d (String c s')).
  { intros m. simpl. rewrite Hc1, Hc2. reflexivity. }
  assert (Hlen : String.length rest < String.length (String c s')).
  { destruct (c =? json.dquote)%char.
    { destruct (json.scan_string s') as [[b r] |] eqn:Hs; [| discriminate].
      injection Hp as _ <-. apply scan_string_length in Hs. simpl. lia. }
    destruct (c =? "n")%char.
    { destruct (json.strip_prefix "ull" s') as [r |] eqn:Hs; [| discriminate].
      simpl in Hp. injection Hp as _ <-. apply strip_prefix_length in Hs. simpl. lia. }
    destruct (c =? "t")%char.
    { destruct (json.strip_prefix "rue" s') as [r |] eqn:Hs; [| discriminate].
      simpl in Hp. injection Hp as _ <-. apply strip_prefix_length in Hs. simpl. lia. }
    destruct (c =? "f")%char.
    { destruct (json.strip_prefix "alse" s') as [r |] eqn:Hs; [| discriminate].
      simpl in Hp. injection Hp as _ <-. apply strip_prefix_length in Hs. simpl. lia. }
    destruct (json.scan_number (String c s')) as [[lit r] |] eqn:Hs; [| discriminate].
    injection Hp as _ <-. apply scan_number_length in Hs. exact Hs. }
  split; [exact Hlen |].
  intros m Hm. destruct m as [| m']; [lia |].
  rewrite Hscalar. simpl. rewrite Hc1, Hc2. exact Hp.
Qed.

Lemma enough_elements_step :
  forall d s vs rest,
    json.parse_elements (S n) d s = Some (vs, rest) ->
    String.length rest < String.length s
    /\ forall m, String.length s - String.length rest <= m ->
                 json.parse_elements m d s = Some (vs, rest).
Proof.
  intros d s vs rest Hp. simpl in Hp.
  destruct (json.parse_value n d s) as [[v r] |] eqn:Hv; [| discriminate].
  destruct (IHv _ _ _ _ Hv) as [Hlv Hfv].
  pose proof (skip_space_length r) as Hws.
  destruct (json.skip_space r) as [| c r'] eqn:Hr; [discriminate |].
  destruct (c =? ",")%char eqn:Hc.
  - pose proof (skip_space_length r') as Hws'.
    destruct (json.parse_elements n d (json.skip_space r')) as [[vs' rest'] |] eqn:He;
      [| discriminate].
    injection Hp as <- <-. destruct (IHe _ _ _ _ He) as [Hle Hfe].
    split; [simpl in *; lia |].
    intros m Hm. destruct m as [| m']; [simpl in *; lia |].
    simpl. rewrite Hfv by (simpl in *; lia). rewrite Hr, Hc.
    rewrite Hfe by (simpl in *; lia). reflexivity.
  - destruct (c =? "]")%char eqn:Hc'; [| discriminate].
    injection Hp as <- <-. split; [simpl in *; lia |].
    intros m Hm. destruct m as [| m']; [simpl in *; lia |].
    simpl. rewrite Hfv by (simpl in *; lia). rewrite Hr, Hc, Hc'. reflexivity.
Qed.

Lemma enough_members_step :
  forall d s ms rest,
    json.parse_members (S n) d s = Some (ms, rest) ->
    String.length rest < String.length s
    /\ forall m, String.length s - String.length rest <= m ->
                 json.parse_members m d s = Some (ms, rest).
Proof.
  intros d s ms rest Hp. simpl in Hp.
  destruct s as [| q s']; [discriminate |].
  destruct (q =? json.dquote)%char eqn:Hq; [| discriminate].
  destruct (json.scan_string s') as [[key r] |] eqn:Hkey; [| discriminate].
  pose proof (scan_string_length _ _ _ Hkey) as Hlk.
  pose proof (skip_space_length r) as Hws.
  destruct (json.skip_space r) as [| colon r1] eqn:Hr; [discriminate |].
  destruct (colon =? ":")%char eqn:Hcolon; [| discriminate].
  pose proof (skip_space_length r1) as Hws1.
  destruct (json.parse_value n d (json.skip_space r1)) as [[v r2] |] eqn:Hv;
    [| discriminate].
  destruct (IHv _ _ _ _ Hv) as [Hlv Hfv].
  pose proof (skip_space_length r2) as Hws2.
  destruct (json.skip_space r2) as [| c r3] eqn:Hr2; [discriminate |].
  destruct (c =? ",")%char eqn:Hc.
  - pose proof (skip_space_length r3) as Hws3.
    destruct (json.parse_members n d (json.skip_space r3)) as [[ms' rest'] |] eqn:Hms;
      [| discriminate].
    injection Hp as <- <-. destruct (IHm _ _ _ _ Hms) as [Hlm Hfm].
    split; [simpl in *; lia |].
    intros m Hm. destruct m as [| m']; [simpl in *; lia |].
    simpl. rewrite Hq, Hkey, Hr, Hcolon.
    rewrite Hfv by (simpl in *; lia). rewrite Hr2, Hc.
    rewrite Hfm by (simpl in *; lia). reflexivity.
  - destruct (c =? "}")%char eqn:Hc'; [| discriminate].
    injection Hp as <- <-. split; [simpl in *; lia |].
    intros m Hm. destruct m as [| m']; [simpl in *; lia |].
    simpl. rewrite Hq, Hkey, Hr, Hcolon.
    rewrite Hfv by (simpl in *; lia). rewrite Hr2, Hc, Hc'. reflexivity.
Qed.

End Fuel.

Lemma enough_fuel (n : nat) :
  (forall d s v rest,
    json.parse_value n d s = Some (v, rest) ->
    String.length rest < String.length s
    /\ forall m, String.length s - String.length rest <= m ->
                 json.parse_value m d s = Some (v, rest))
  /\ (forall d s vs rest,
    json.parse_elements n d s = Some (vs, rest) ->
    String.length rest < String.length s
    /\ forall m, String.length s - String.length rest <= m ->
                 json.parse_elements m d s = Some (vs, rest))
  /\ (forall d s ms rest,
    json.parse_members n d s = Some (ms, rest) ->
    String.length rest < String.length s
    /\ forall m, String.length s - String.length rest <= m ->
                 json.parse_members m d s = Some (ms, rest)).
Proof.
  induction n as [| n (IHv & IHe & IHm)].
  - split; [| split]; intros d s x rest Hp; discriminate Hp.
  - split; [| split].
    + apply enough_value_step; assumption.
    + apply enough_elements_step; assumption.
    + apply enough_members_step; assumption.
Qed.

(** [parse] does not depend on its fuel: whenever the descent succeeds
    with some fuel on a whole text, [parse] returns that value. *)
Theorem parse_fuel_independent (data : json.RawMessage) (n : nat)
    (v : json.value) (rest : string) :
  json.parse_value n 0 (json.skip_space data) = Some (v, rest) ->
  json.skip_space rest = EmptyString ->
  json.parse data = Some v.
Proof.
  intros Hp Hrest. unfold json.parse.
  destruct (enough_fuel n) as [Hv _]. destruct (Hv _ _ _ _ Hp) as [_ Hfuel].
  rewrite Hfuel.
  - rewrite Hrest. reflexivity.
  - pose proof (skip_space_length data). lia.
Qed.

(** *** Null, identifiers, the encoder *)

Lemma parse_null : json.parse null = Some json.Null.
Proof. reflexivity. Qed.

Lemma Unmarshal_null {T : Type} `{json.Unmarshaler T} (t : T) :
  json.Unmarshal null t = (t, None).
Proof. unfold json.Unmarshal. rewrite parse_null. reflexivity. Qed.

Lemma Marshal_Id_nil : json.Marshal (None : option json.RawMessage) = inl json.d_null.
Proof. reflexivity. Qed.

Lemma Marshal_Id_valid (m : json.RawMessage) :
  json.Valid m = true -> json.Marshal (Some m) = inl (json.d_raw m).
Proof.
  intros Hm. unfold json.Marshal, json.RawMessage_ptr_Marshaler.
  rewrite Hm. reflexivity.
Qed.

Section Writer.
Context {V : Type} `{json.Marshaler V}.

Lemma Encode_ok (w : http.ResponseWriter) (v : V) (doc : json.document) :
  json.Marshal v = inl doc ->
  http.broken w = false ->
  Encoder.Encode w v =
    ({| http.header := http.header w;
        http.body := http.body w ++ [doc];
        http.broken := false |}, None).
Proof.
  intros Hv Hw. unfold Encoder.Encode, http.Write.
  rewrite Hv, Hw. reflexivity.
Qed.

Lemma Encode_unmarshalable (w : http.ResponseWriter) (v : V) (e : error) :
  json.Marshal v = inr e -> Encoder.Encode w v = (w, Some e).
Proof. intros Hv. unfold Encoder.Encode. rewrite Hv. reflexivity. Qed.

Lemma Encode_broken (w : http.ResponseWriter) (v : V) :
  http.broken w = true -> exists e, Encoder.Encode w v = (w, Some e).
Proof.
  intros Hw. unfold Encoder.Encode, http.Write.
  destruct (json.Marshal v) as [doc | e]; rewrite ?Hw; eauto.
Qed.

(** The encoder never touches the header map. *)
Lemma Encode_header (w : http.ResponseWriter) (v : V) :
  http.header (fst (Encoder.Encode w v)) = http.header w.
Proof.
  unfold Encoder.Encode, http.Write.
  destruct (json.Marshal v); [destruct (http.broken w) |]; reflexivity.
Qed.
End Writer.

Lemma SetHeader_Get (key val : string) (w : http.ResponseWriter) :
  http.Header_Get key (http.header (http.SetHeader key val w)) = val.
Proof.
  unfold http.Header_Get, http.SetHeader, http.Header_Set. simpl.
  rewrite lookup_insert_eq. reflexivity.
Qed.

Lemma set_err_same (c : CodecRequest) : set_err (err c) c = c.
Proof. destruct c; reflexivity. Qed.

Lemma set_err_twice (e e' : option error) (c : CodecRequest) :
  set_err e (set_err e' c) = set_err e c.
Proof. reflexivity. Qed.

(** What [ReadRequest] returns is what it leaves in the error slot. *)
Lemma ReadRequest_returns_slot {T : Type} `{json.Unmarshaler T}
    (c c' : CodecRequest) (args args' : T) (e : option error) :
  ReadRequest c args = (c', args', e) -> err c' = e.
Proof.
  unfold ReadRequest. destruct (err c) eqn:Hc.
  - intros [= <- _ <-]. exact Hc.
  - destruct (ReadRequest_params c) as [c1 data].
    destruct (json.Unmarshal data args) as [a e0].
    intros [= <- _ <-]. reflexivity.
Qed.

(** [ReadRequest] on a session with no captured error and a payload. *)
Lemma ReadRequest_present_eq {T : Type} `{json.Unmarshaler T}
    (c : CodecRequest) (args : T) (data : json.RawMessage) :
  err c = None ->
  req_Params (request c) = Some data ->
  ReadRequest c args
  = (set_err (snd (json.Unmarshal data args)) c,
     fst (json.Unmarshal data args),
     snd (json.Unmarshal data args)).
Proof.
  intros Hc Hp. unfold ReadRequest, ReadRequest_params.
  rewrite Hc, Hp.
  destruct (json.Unmarshal data args) as [args' e]. reflexivity.
Qed.

(* ================================================================== *)
(** ** Method resolution *)
(* ================================================================== *)

(** C6. [Method] on a session that captured a decode error returns that
    error with the empty name; on any other session it returns the
    request's [action] and [method] joined by one dot, with a nil error. *)
Theorem Method_resolves (req : serverRequest) :
  (forall e : error,
      Method {| request := req; err := Some e |}
      = ({| request := req; err := Some e |}, EmptyString, Some e))
  /\ Method {| request := req; err := None |}
     = ({| request := req; err := None |},
        req_Action req ++ "." ++ req_Method req, None).
Proof. split; [intros e |]; reflexivity. Qed.

Example Method_calc_add :
  Method (calc_add None (Some "1")) = (calc_add None (Some "1"), "Calc.Add", None).
Proof. reflexivity. Qed.

Example Method_malformed : Method malformed = (malformed, "", Some SyntaxError).
Proof. reflexivity. Qed.

(** C8. [Method] is a projection: it leaves the session as it found it,
    and a second call right after the first returns the same name and the
    same error. *)
Theorem Method_pure (c : CodecRequest) :
  let '(c1, name1, e1) := Method c in
  let '(c2, name2, e2) := Method c1 in
  c1 = c /\ c2 = c /\ name2 = name1 /\ e2 = e1.
Proof.
  unfold Method. destruct (err c) as [e |] eqn:Hc; rewrite Hc; auto.
Qed.

(* ================================================================== *)
(** ** Argument decoding *)
(* ================================================================== *)

Example ReadRequest_one_argument :
  ReadRequest (calc_add (Some "[5]") (Some "1")) 0%Z
  = (calc_add (Some "[5]") (Some "1"), 5%Z, None).
Proof. reflexivity. Qed.

Example ReadRequest_bare_scalar :
  ReadRequest (calc_add (Some "5") (Some "1")) 0%Z
  = (set_err (Some (UnmarshalTypeError "number")) (calc_add (Some "5") (Some "1")),
     0%Z, Some (UnmarshalTypeError "number")).
Proof. reflexivity. Qed.

Example ReadRequest_after_decode_error :
  ReadRequest malformed 0%Z = (malformed, 0%Z, Some SyntaxError).
Proof. reflexivity. Qed.

(** C1, as stated, fails: a session whose [data] is [[5]] is not rejected.
    [ReadRequest] returns nil, leaves the error slot nil, and the target
    holds 5. *)
Lemma ReadRequest_data_present_not_rejected :
  ReadRequest (calc_add (Some "[5]") (Some "1")) 0%Z
  = (calc_add (Some "[5]") (Some "1"), 5%Z, None)
  /\ ~ (forall (c : CodecRequest) (args : Z) (data : json.RawMessage),
          err c = None ->
          req_Params (request c) = Some data ->
          snd (ReadRequest c args) = Some missing_params).
Proof.
  split; [reflexivity |].
  intros Hclaim.
  specialize (Hclaim (calc_add (Some "[5]") (Some "1")) 0%Z "[5]" eq_refl eq_refl).
  vm_compute in Hclaim. discriminate Hclaim.
Qed.

(** C1, amended.  On a session with no captured error whose [data] is not
    nil, the [else] branch does store the missing-params error in the
    slot, and [ReadRequest] still unmarshals the payload into the
    one-element array around the target; the slot is then overwritten
    with, and the call returns, what that unmarshal returned. *)
Theorem ReadRequest_data_present {T : Type} `{json.Unmarshaler T}
    (c : CodecRequest) (args : T) (data : json.RawMessage) :
  err c = None ->
  req_Params (request c) = Some data ->
  ReadRequest_params c = (set_err (Some missing_params) c, data)
  /\ ReadRequest c args
     = (set_err (snd (json.Unmarshal data args)) c,
        fst (json.Unmarshal data args),
        snd (json.Unmarshal data args)).
Proof.
  intros Hc Hp. split.
  - unfold ReadRequest_params. rewrite Hp. reflexivity.
  - apply ReadRequest_present_eq; assumption.
Qed.

Lemma ReadRequest_data_present_witness :
  err (calc_add (Some "[true]") None) = None
  /\ req_Params (request (calc_add (Some "[true]") None)) = Some "[true]"
  /\ ReadRequest (calc_add (Some "[true]") None) false
     = (calc_add (Some "[true]") None, true, None).
Proof.
  split; [reflexivity | split; [reflexivity |]].
  exact (proj2 (ReadRequest_data_present
                  (calc_add (Some "[true]") None) false "[true]" eq_refl eq_refl)).
Defined.

(** C5, as stated, fails: with nil [data] the target is not bound to
    anything, it keeps what it held.  Were it bound to a representation of
    null, a Go [int] that held 7 and one that held 8 would hold the same
    value after the call. *)
Lemma ReadRequest_null_data_binds_nothing :
  ReadRequest (calc_add None (Some "1")) 7%Z
  = (calc_add (Some null) (Some "1"), 7%Z, None)
  /\ ReadRequest (calc_add None (Some "1")) 8%Z
     = (calc_add (Some null) (Some "1"), 8%Z, None)
  /\ ~ (forall c : CodecRequest,
          err c = None ->
          req_Params (request c) = None ->
          exists nullrep : Z,
            forall args : Z, snd (fst (ReadRequest c args)) = nullrep).
Proof.
  split; [reflexivity | split; [reflexivity |]].
  intros Hclaim.
  destruct (Hclaim (calc_add None (Some "1")) eq_refl eq_refl) as [nullrep Hbound].
  pose proof (Hbound 7%Z) as H7. pose proof (Hbound 8%Z) as H8.
  vm_compute in H7, H8. congruence.
Qed.

(** C5, amended.  On a session with no captured error whose [data] is nil,
    [ReadRequest] substitutes the canonical null payload for it, unmarshals
    that payload into the one-element array around the target, which
    leaves the target as the caller supplied it, and returns nil. *)
Theorem ReadRequest_null_data {T : Type} `{json.Unmarshaler T}
    (c : CodecRequest) (args : T) :
  err c = None ->
  req_Params (request c) = None ->
  ReadRequest c args = (set_Params (Some null) c, args, None).
Proof.
  intros Hc Hp. unfold ReadRequest, ReadRequest_params.
  rewrite Hc, Hp, Unmarshal_null.
  unfold set_err, set_Params. simpl. rewrite Hc. reflexivity.
Qed.

Lemma ReadRequest_null_data_witness :
  err (calc_add None (Some "1")) = None
  /\ req_Params (request (calc_add None (Some "1"))) = None
  /\ ReadRequest (calc_add None (Some "1")) 7%Z
     = (calc_add (Some null) (Some "1"), 7%Z, None).
Proof.
  split; [reflexivity | split; [reflexivity |]].
  exact (ReadRequest_null_data (calc_add None (Some "1")) 7%Z eq_refl eq_refl).
Defined.



(* ================================================================== *)
(** ** Response emission *)
(* ================================================================== *)

Example WriteResponse_calc_add_result :
  WriteResponse (calc_add None (Some "1")) fresh_writer 3%Z None
  = (calc_add None (Some "1"),
     {| http.header := {[ "Content-Type" := ["application/json; charset=utf-8"] ]};
        http.body :=
          [json.d_object
             [("result", json.d_number "3"); ("tid", json.d_raw "1");
              ("type", json.d_string "rpc"); ("action", json.d_string "Calc");
              ("method", json.d_string "Add")]];
        http.broken := false |},
     None).
Proof. reflexivity. Qed.

Example WriteResponse_calc_add_overflow :
  WriteResponse (calc_add None (Some "1")) fresh_writer 0%Z
    (Some (errors.New "overflow"))
  = (calc_add None (Some "1"),
     {| http.header := {[ "Content-Type" := ["application/json; charset=utf-8"] ]};
        http.body :=
          [json.d_object
             [("message", json.d_string "overflow"); ("tid", json.d_raw "1");
              ("type", json.d_string "exception"); ("action", json.d_string "Calc");
              ("method", json.d_string "Add")]];
        http.broken := false |},
     None).
Proof. reflexivity. Qed.

Example WriteResponse_malformed :
  WriteResponse malformed fresh_writer 0%Z None
  = (malformed, fresh_writer, Some SyntaxError).
Proof. reflexivity. Qed.

(** C7. On a session that holds a captured error, be it the decode error
    of the construction or the error a [ReadRequest] has just returned,
    [WriteResponse] returns that error and leaves the writer as it was: no
    body, no header, whatever the reply and the dispatch error are. *)
Theorem WriteResponse_captured_error {R : Type} `{json.Marshaler R}
    (c : CodecRequest) (w : http.ResponseWriter) (reply : R)
    (methodErr : option error) (e : error) :
  (err c = Some e
   \/ exists (T : Type) (U : json.Unmarshaler T) (c0 : CodecRequest) (args args' : T),
        ReadRequest c0 args = (c, args', Some e)) ->
  WriteResponse c w reply methodErr = (c, w, Some e).
Proof.
  intros Hcaptured.
  assert (Hc : err c = Some e).
  { destruct Hcaptured as [Hc | (T & U & c0 & args & args' & Hread)]; [exact Hc |].
    exact (ReadRequest_returns_slot c0 c args args' (Some e) Hread). }
  unfold WriteResponse. rewrite Hc. reflexivity.
Qed.

Lemma WriteResponse_captured_error_witness :
  (err (set_err (Some (UnmarshalTypeError "object")) (calc_add (Some "{}") None))
   = Some (UnmarshalTypeError "object")
   \/ exists (T : Type) (U : json.Unmarshaler T) (c0 : CodecRequest) (args args' : T),
        ReadRequest c0 args
        = (set_err (Some (UnmarshalTypeError "object")) (calc_add (Some "{}") None),
           args', Some (UnmarshalTypeError "object")))
  /\ WriteResponse
       (set_err (Some (UnmarshalTypeError "object")) (calc_add (Some "{}") None))
       fresh_writer 3%Z (Some (errors.New "overflow"))
     = (set_err (Some (UnmarshalTypeError "object")) (calc_add (Some "{}") None),
        fresh_writer, Some (UnmarshalTypeError "object")).
Proof.
  assert (Hread : ReadRequest (calc_add (Some "{}") None) 0%Z
                  = (set_err (Some (UnmarshalTypeError "object"))
                       (calc_add (Some "{}") None),
                     0%Z, Some (UnmarshalTypeError "object")))
    by reflexivity.
  split.
  - right. exists Z, json.int_Unmarshaler, (calc_add (Some "{}") None), 0%Z, 0%Z.
    exact Hread.
  - apply WriteResponse_captured_error.
    right. exists Z, json.int_Unmarshaler, (calc_add (Some "{}") None), 0%Z, 0%Z.
    exact Hread.
Defined.

(** C2. On a session with no captured error, a dispatch error makes
    [WriteResponse] set the content type to JSON and write one body, whose
    [type] is [exception] whatever the request's [type] was, whose
    [action] and [method] are the request's, whose [message] is the text of
    the error and whose [tid] is the request's, [null] when the request had
    none: a notification gets its error body too.  (The writer accepts the
    write, and a [tid], if any, is JSON, as the decoder left it.) *)
Theorem WriteResponse_dispatch_error {R : Type} `{json.Marshaler R}
    (c : CodecRequest) (w : http.ResponseWriter) (reply : R) (methodErr : error) :
  err c = None ->
  http.broken w = false ->
  (forall tid, req_Id (request c) = Some tid -> json.Valid tid = true) ->
  WriteResponse c w reply (Some methodErr)
  = (c,
     {| http.header := <[ "Content-Type" := ["application/json; charset=utf-8"] ]> (http.header w);
        http.body :=
          http.body w ++
          [json.d_object
             [("message", json.d_string (Error methodErr));
              ("tid", match req_Id (request c) with
                      | Some tid => json.d_raw tid
                      | None => json.d_null
                      end);
              ("type", json.d_string "exception");
              ("action", json.d_string (req_Action (request c)));
              ("method", json.d_string (req_Method (request c)))]];
        http.broken := false |},
     None).
Proof.
  intros Hc Hw Hid. unfold WriteResponse. rewrite Hc.
  erewrite Encode_ok; [reflexivity | | exact Hw].
  unfold json.Marshal at 1, serverErrorResponse_Marshaler. simpl.
  destruct (req_Id (request c)) as [tid |] eqn:Htid.
  - rewrite (Marshal_Id_valid tid (Hid tid eq_refl)). reflexivity.
  - rewrite Marshal_Id_nil. reflexivity.
Qed.

Lemma WriteResponse_dispatch_error_witness :
  err (calc_add None None) = None
  /\ http.broken fresh_writer = false
  /\ (forall tid, req_Id (request (calc_add None None)) = Some tid ->
                  json.Valid tid = true)
  /\ WriteResponse (calc_add None None) fresh_writer 0%Z (Some (errors.New "overflow"))
     = (calc_add None None,
        {| http.header := {[ "Content-Type" := ["application/json; charset=utf-8"] ]};
           http.body :=
             [json.d_object
                [("message", json.d_string "overflow"); ("tid", json.d_null);
                 ("type", json.d_string "exception");
                 ("action", json.d_string "Calc");
                 ("method", json.d_string "Add")]];
           http.broken := false |},
        None).
Proof.
  assert (Hid : forall tid, req_Id (request (calc_add None None)) = Some tid ->
                            json.Valid tid = true)
    by (intros tid Htid; discriminate Htid).
  split; [reflexivity | split; [reflexivity | split; [exact Hid |]]].
  exact (WriteResponse_dispatch_error (calc_add None None) fresh_writer 0%Z
           (errors.New "overflow") eq_refl eq_refl Hid).
Defined.

(** C3. On a session with no captured error and a nil [tid], a nil
    dispatch error makes [WriteResponse] return nil with the writer left as
    it was: no body is written and no header is set. *)
Theorem WriteResponse_notification {R : Type} `{json.Marshaler R}
    (c : CodecRequest) (w : http.ResponseWriter) (reply : R) :
  err c = None ->
  req_Id (request c) = None ->
  WriteResponse c w reply None = (c, w, None).
Proof.
  intros Hc Hid. unfold WriteResponse. rewrite Hc, Hid. reflexivity.
Qed.

Lemma WriteResponse_notification_witness :
  err (calc_add None None) = None
  /\ req_Id (request (calc_add None None)) = None
  /\ WriteResponse (calc_add None None) fresh_writer 3%Z None
     = (calc_add None None, fresh_writer, None).
Proof.
  split; [reflexivity | split; [reflexivity |]].
  exact (WriteResponse_notification (calc_add None None) fresh_writer 3%Z
           eq_refl eq_refl).
Defined.



Example WriteResponse_unsupported_reply :
  Encoder.Encode fresh_writer json.Unsupported
  = (fresh_writer, Some (MarshalerError "unsupported type"))
  /\ WriteResponse (calc_add None (Some "1")) fresh_writer json.Unsupported None
     = (calc_add None (Some "1"),
        http.SetHeader "Content-Type" "application/json; charset=utf-8" fresh_writer,
        None).
Proof. split; reflexivity. Qed.

Example WriteResponse_broken_writer :
  WriteResponse (calc_add None (Some "1")) broken_writer 3%Z
    (Some (errors.New "overflow"))
  = (calc_add None (Some "1"),
     http.SetHeader "Content-Type" "application/json; charset=utf-8" broken_writer,
     None).
Proof. reflexivity. Qed.

(** C10. On a session with no captured error [WriteResponse] returns nil,
    whatever the reply, the dispatch error and the writer are: what the
    encoder returns, for a value it cannot marshal or a write that fails,
    is dropped on the error path and on the success path alike. *)
Theorem WriteResponse_returns_nil {R : Type} `{json.Marshaler R}
    (c : CodecRequest) (w : http.ResponseWriter) (reply : R)
    (methodErr : option error) :
  err c = None ->
  snd (WriteResponse c w reply methodErr) = None.
Proof.
  intros Hc. unfold WriteResponse. rewrite Hc.
  destruct methodErr as [me |].
  - destruct (Encoder.Encode _ _) as [w2 e]. reflexivity.
  - destruct (req_Id (request c)) as [tid |]; [| reflexivity].
    destruct (Encoder.Encode _ _) as [w2 e]. reflexivity.
Qed.

Lemma WriteResponse_returns_nil_witness :
  err (calc_add None (Some "1")) = None
  /\ (exists e, Encoder.Encode
                  (http.SetHeader content_type json_utf8 broken_writer)
                  {| res_Result := json.Unsupported;
                     res_Id := Some "1";
                     res_Type := "rpc";
                     res_Action := "Calc";
                     res_Method := "Add" |}
                = (http.SetHeader content_type json_utf8 broken_writer, Some e))
  /\ snd (WriteResponse (calc_add None (Some "1")) broken_writer json.Unsupported None)
     = None.
Proof.
  split; [reflexivity | split].
  - exists (MarshalerError "unsupported type"). reflexivity.
  - exact (WriteResponse_returns_nil (calc_add None (Some "1")) broken_writer
             json.Unsupported None eq_refl).
Defined.

(* ================================================================== *)
(** ** The three methods, continued *)
(* ================================================================== *)

(** *** The dispatch name *)

Lemma dotted_name_inj (a1 a2 m1 m2 : string) :
  (forall p q, a1 <> p ++ "." ++ q) ->
  (forall p q, a2 <> p ++ "." ++ q) ->
  a1 ++ "." ++ m1 = a2 ++ "." ++ m2 ->
  a1 = a2 /\ m1 = m2.
Proof.
  revert a2. induction a1 as [| c a1 IH]; intros a2 H1 H2 Heq.
  - destruct a2 as [| c2 a2]; cbn in Heq.
    + injection Heq as Heq. auto.
    + injection Heq as <- Heq. exfalso. apply (H2 "" a2). reflexivity.
  - destruct a2 as [| c2 a2]; cbn in Heq.
    + injection Heq as -> Heq. exfalso. apply (H1 "" a1). reflexivity.
    + injection Heq as <- Heq.
      destruct (IH a2) as [-> ->]; auto.
      * intros p q ->. apply (H1 (String c p) q). reflexivity.
      * intros p q ->. apply (H2 (String c p) q). reflexivity.
Qed.

Lemma Calc_has_no_dot (p q : string) : "Calc" <> p ++ "." ++ q.
Proof.
  destruct p as [| a [| b [| c [| d [| e p]]]]]; cbn; intros Heq; discriminate Heq.
Qed.

(** X1. The name [Method] returns tells the action and the method apart
    as long as no action holds a dot: two sessions without a captured
    error whose actions hold no dot and for which [Method] returns the
    same name have the same action and the same method. *)
Theorem Method_name_determines_action (c1 c2 : CodecRequest) (name : string) :
  (forall p q, req_Action (request c1) <> p ++ "." ++ q) ->
  (forall p q, req_Action (request c2) <> p ++ "." ++ q) ->
  Method c1 = (c1, name, None) ->
  Method c2 = (c2, name, None) ->
  req_Action (request c1) = req_Action (request c2)
  /\ req_Method (request c1) = req_Method (request c2).
Proof.
  unfold Method. intros H1 H2.
  destruct (err c1); [intros [= _ _ ?]; discriminate |].
  destruct (err c2); [intros _ [= _ _ ?]; discriminate |].
  intros [= <-] [= Hname].
  apply dotted_name_inj; auto.
Qed.

Lemma Method_name_determines_action_witness :
  (forall p q, req_Action (request (calc_add (Some "[1]") (Some "1"))) <> p ++ "." ++ q)
  /\ (forall p q, req_Action (request (calc_add None None)) <> p ++ "." ++ q)
  /\ Method (calc_add (Some "[1]") (Some "1"))
     = (calc_add (Some "[1]") (Some "1"), "Calc.Add", None)
  /\ Method (calc_add None None) = (calc_add None None, "Calc.Add", None)
  /\ req_Action (request (calc_add (Some "[1]") (Some "1")))
     = req_Action (request (calc_add None None))
  /\ req_Method (request (calc_add (Some "[1]") (Some "1")))
     = req_Method (request (calc_add None None)).
Proof.
  split; [exact Calc_has_no_dot | split; [exact Calc_has_no_dot |]].
  split; [reflexivity | split; [reflexivity |]].
  exact (Method_name_determines_action
           (calc_add (Some "[1]") (Some "1")) (calc_add None None) "Calc.Add"
           Calc_has_no_dot Calc_has_no_dot eq_refl eq_refl).
Defined.

(** *** Argument decoding, continued *)

(** X2. An error [ReadRequest] returns stays in the session: [Method]
    then returns the empty name with that error, and every later
    [ReadRequest], into whatever target, returns it again and leaves the
    session and the target alone. *)
Theorem ReadRequest_error_is_sticky {T U : Type}
    `{json.Unmarshaler T} `{json.Unmarshaler U}
    (c c' : CodecRequest) (args args' : T) (e : error) :
  ReadRequest c args = (c', args', Some e) ->
  Method c' = (c', EmptyString, Some e)
  /\ forall again : U, ReadRequest c' again = (c', again, Some e).
Proof.
  intros Hread.
  pose proof (ReadRequest_returns_slot c c' args args' (Some e) Hread) as Hslot.
  unfold Method, ReadRequest. rewrite Hslot.
  split; [reflexivity | intros again; reflexivity].
Qed.

Lemma ReadRequest_error_is_sticky_witness :
  ReadRequest (calc_add (Some "[1.5]") (Some "1")) 0%Z
  = (set_err (Some (UnmarshalTypeError "number 1.5")) (calc_add (Some "[1.5]") (Some "1")),
     0%Z, Some (UnmarshalTypeError "number 1.5"))
  /\ Method (set_err (Some (UnmarshalTypeError "number 1.5"))
               (calc_add (Some "[1.5]") (Some "1")))
     = (set_err (Some (UnmarshalTypeError "number 1.5")) (calc_add (Some "[1.5]") (Some "1")),
        EmptyString, Some (UnmarshalTypeError "number 1.5")).
Proof.
  split; [reflexivity |].
  exact (proj1 (ReadRequest_error_is_sticky (U := bool)
                  (calc_add (Some "[1.5]") (Some "1")) _ 0%Z 0%Z
                  (UnmarshalTypeError "number 1.5") eq_refl)).
Defined.

Lemma ReadRequest_keeps_fields {T : Type} `{json.Unmarshaler T}
    (c c' : CodecRequest) (args args' : T) (e : option error) :
  ReadRequest c args = (c', args', e) ->
  req_Id (request c') = req_Id (request c)
  /\ req_Type (request c') = req_Type (request c)
  /\ req_Action (request c') = req_Action (request c)
  /\ req_Method (request c') = req_Method (request c).
Proof.
  unfold ReadRequest, ReadRequest_params.
  destruct (err c); [intros [= <- _ _]; auto |].
  destruct (req_Params (request c)) as [data |].
  - destruct (json.Unmarshal data args) as [a e']. intros [= <- _ _]. simpl. auto.
  - destruct (json.Unmarshal null args) as [a e']. intros [= <- _ _]. simpl. auto.
Qed.

(** X3. Of the request, [ReadRequest] writes at most [data]: [tid],
    [type], [action] and [method] are what they were, and [data] is what
    it was or, when it was nil, the canonical null. *)
Theorem ReadRequest_frame {T : Type} `{json.Unmarshaler T}
    (c : CodecRequest) (args : T) :
  let '(c', _, _) := ReadRequest c args in
  req_Id (request c') = req_Id (request c)
  /\ req_Type (request c') = req_Type (request c)
  /\ req_Action (request c') = req_Action (request c)
  /\ req_Method (request c') = req_Method (request c)
  /\ (req_Params (request c') = req_Params (request c)
      \/ (req_Params (request c) = None /\ req_Params (request c') = Some null)).
Proof.
  unfold ReadRequest, ReadRequest_params.
  destruct (err c); [auto 6 |].
  destruct (req_Params (request c)) as [data |] eqn:Hp.
  - destruct (json.Unmarshal data args) as [args' e]. simpl. rewrite Hp. auto 6.
  - destruct (json.Unmarshal null args) as [args' e]. simpl. auto 7.
Qed.

(** X4. On a session with no captured error and nil [data], the first
    [ReadRequest] leaves the canonical null in [data], and a second
    [ReadRequest] on the session it returns changes nothing more: it
    returns the same session, the same target and nil. *)
Theorem ReadRequest_twice_on_nil_data {T : Type} `{json.Unmarshaler T}
    (c : CodecRequest) (args : T) :
  err c = None ->
  req_Params (request c) = None ->
  let '(c1, args1, _) := ReadRequest c args in
  req_Params (request c1) = Some null
  /\ ReadRequest c1 args1 = (c1, args1, None).
Proof.
  intros Hc Hp. unfold ReadRequest at 1. unfold ReadRequest_params.
  rewrite Hc, Hp, Unmarshal_null. split; [reflexivity |].
  rewrite (ReadRequest_present_eq _ args null) by reflexivity.
  rewrite Unmarshal_null. reflexivity.
Qed.

Lemma ReadRequest_twice_on_nil_data_witness :
  err (calc_add None (Some "1")) = None
  /\ req_Params (request (calc_add None (Some "1"))) = None
  /\ req_Params (request (calc_add (Some null) (Some "1"))) = Some null
  /\ ReadRequest (calc_add (Some null) (Some "1")) 7%Z
     = (calc_add (Some null) (Some "1"), 7%Z, None).
Proof.
  split; [reflexivity | split; [reflexivity |]].
  exact (ReadRequest_twice_on_nil_data (calc_add None (Some "1")) 7%Z eq_refl eq_refl).
Defined.

(** X5. A payload that is neither a JSON array nor [null] is always
    rejected: on a session with no captured error, [ReadRequest] returns an
    error, keeps it in the session and leaves the target alone; the error
    is a syntax error exactly when the payload is not JSON. *)
Theorem ReadRequest_payload_not_array {T : Type} `{json.Unmarshaler T}
    (c : CodecRequest) (args : T) (data : json.RawMessage) :
  err c = None ->
  req_Params (request c) = Some data ->
  (forall elems, json.parse data <> Some (json.Array elems)) ->
  json.parse data <> Some json.Null ->
  exists e : error,
    ReadRequest c args = (set_err (Some e) c, args, Some e)
    /\ (e = SyntaxError <-> json.parse data = None).
Proof.
  intros Hc Hp Harray Hnull.
  rewrite (ReadRequest_present_eq c args data Hc Hp).
  unfold json.Unmarshal.
  destruct (json.parse data) as [[| b | lit | raw | elems | members] |];
    try (eexists; split; [reflexivity | split; congruence]).
  - congruence.
  - exfalso. exact (Harray elems eq_refl).
Qed.

Lemma ReadRequest_payload_not_array_witness :
  err (calc_add (Some "{}") (Some "1")) = None
  /\ req_Params (request (calc_add (Some "{}") (Some "1"))) = Some "{}"
  /\ (forall elems, json.parse "{}" <> Some (json.Array elems))
  /\ json.parse "{}" <> Some json.Null
  /\ exists e : error,
       ReadRequest (calc_add (Some "{}") (Some "1")) 0%Z
       = (set_err (Some e) (calc_add (Some "{}") (Some "1")), 0%Z, Some e)
       /\ (e = SyntaxError <-> json.parse "{}" = None).
Proof.
  assert (Harray : forall elems, json.parse "{}" <> Some (json.Array elems))
    by (intros elems; vm_compute; discriminate).
  assert (Hnull : json.parse "{}" <> Some json.Null) by (vm_compute; discriminate).
  split; [reflexivity | split; [reflexivity | split; [exact Harray | split; [exact Hnull |]]]].
  exact (ReadRequest_payload_not_array (calc_add (Some "{}") (Some "1")) 0%Z "{}"
           eq_refl eq_refl Harray Hnull).
Defined.

(** X6. Of a payload that is a JSON array only the first element counts:
    on a session with no captured error, an empty array and an array whose
    first element is [null] leave the target and the session as they were
    and return nil; otherwise the first element is decoded into the
    target, and the outcome of that is returned and kept in the session.
    The elements after the first are never looked at. *)
Theorem ReadRequest_payload_array {T : Type} `{json.Unmarshaler T}
    (c : CodecRequest) (args : T) (data : json.RawMessage)
    (elems : list json.value) :
  err c = None ->
  req_Params (request c) = Some data ->
  json.parse data = Some (json.Array elems) ->
  ReadRequest c args
  = match elems with
    | [] | json.Null :: _ => (c, args, None)
    | x :: _ =>
        (set_err (snd (json.unmarshal x args)) c,
         fst (json.unmarshal x args), snd (json.unmarshal x args))
    end.
Proof.
  intros Hc Hp Hparse.
  rewrite (ReadRequest_present_eq c args data Hc Hp).
  unfold json.Unmarshal. rewrite Hparse.
  assert (Hsame : set_err None c = c) by (rewrite <- Hc; apply set_err_same).
  destruct elems as [| [] rest]; simpl; rewrite ?Hsame; reflexivity.
Qed.

Lemma ReadRequest_payload_array_witness :
  err (calc_add (Some "[ 1, true ]") (Some "1")) = None
  /\ req_Params (request (calc_add (Some "[ 1, true ]") (Some "1"))) = Some "[ 1, true ]"
  /\ json.parse "[ 1, true ]" = Some (json.Array [json.Number "1"; json.Bool true])
  /\ ReadRequest (calc_add (Some "[ 1, true ]") (Some "1")) 0%Z
     = (calc_add (Some "[ 1, true ]") (Some "1"), 1%Z, None).
Proof.
  split; [reflexivity | split; [reflexivity | split; [reflexivity |]]].
  exact (ReadRequest_payload_array (calc_add (Some "[ 1, true ]") (Some "1")) 0%Z
           "[ 1, true ]" [json.Number "1"; json.Bool true] eq_refl eq_refl eq_refl).
Defined.

(** *** Response emission, continued *)

(** Every path through [WriteResponse]: the captured error, the two
    bodies (marshalled or not, written or not) and the notification. *)
Ltac destruct_Marshal :=
  match goal with
  | |- context [match @json.Marshal ?V ?inst ?v with _ => _ end] =>
      let doc := fresh "doc" in
      let encErr := fresh "encErr" in
      let Hdoc := fresh "Hdoc" in
      destruct (@json.Marshal V inst v) as [doc | encErr] eqn:Hdoc
  end.

Ltac WriteResponse_paths c w methodErr :=
  unfold WriteResponse, Encoder.Encode, http.Write;
  destruct (err c) as [captured |] eqn:?;
  [ | destruct methodErr as [me |];
      [ destruct_Marshal; [ simpl; destruct (http.broken w) eqn:? | ]
      | destruct (req_Id (request c)) as [tid |] eqn:?;
        [ destruct_Marshal; [ simpl; destruct (http.broken w) eqn:? | ]
        | ] ] ];
  simpl.

(** X7. [WriteResponse] touches nothing but the content type and the end
    of the body: the session is returned as it was, the writer is as
    broken as before, the body is what it was or what it was followed by
    one document, and every header but [Content-Type] is what it was. *)
Theorem WriteResponse_frame {R : Type} `{json.Marshaler R}
    (c : CodecRequest) (w : http.ResponseWriter) (reply : R)
    (methodErr : option error) :
  let '(c', w', _) := WriteResponse c w reply methodErr in
  c' = c
  /\ http.broken w' = http.broken w
  /\ (http.body w' = http.body w
      \/ exists doc : json.document, http.body w' = (http.body w ++ [doc])%list)
  /\ forall key : string,
       key <> "Content-Type" -> http.header w' !! key = http.header w !! key.
Proof.
  WriteResponse_paths c w methodErr;
    (split; [reflexivity | split; [congruence | split; [eauto |]]]);
    intros key Hkey; unfold http.Header_Set, content_type;
    rewrite ?lookup_insert_ne by congruence; reflexivity.
Qed.

(** X8. No body without the content type: whenever [WriteResponse] has
    changed the body, the writer's [Content-Type] is
    [application/json; charset=utf-8], whatever it was before. *)
Theorem WriteResponse_body_needs_content_type {R : Type} `{json.Marshaler R}
    (c c' : CodecRequest) (w w' : http.ResponseWriter) (reply : R)
    (methodErr e : option error) :
  WriteResponse c w reply methodErr = (c', w', e) ->
  http.body w' <> http.body w ->
  http.header w' !! "Content-Type" = Some ["application/json; charset=utf-8"].
Proof.
  WriteResponse_paths c w methodErr; intros [= <- <- <-] Hbody; simpl in *;
    try congruence;
    unfold http.Header_Set, content_type, json_utf8; apply lookup_insert_eq.
Qed.

Lemma WriteResponse_body_needs_content_type_witness :
  http.body (snd (fst (WriteResponse (calc_add None (Some "1")) fresh_writer 3%Z None)))
  <> http.body fresh_writer
  /\ http.header
       (snd (fst (WriteResponse (calc_add None (Some "1")) fresh_writer 3%Z None)))
     !! "Content-Type"
     = Some ["application/json; charset=utf-8"].
Proof.
  assert (Hbody : http.body
                    (snd (fst (WriteResponse (calc_add None (Some "1")) fresh_writer
                                 3%Z None)))
                  <> http.body fresh_writer)
    by (simpl; discriminate).
  split; [exact Hbody |].
  exact (WriteResponse_body_needs_content_type
           (calc_add None (Some "1")) _ fresh_writer _ 3%Z None _ eq_refl Hbody).
Defined.

(** When a response marshals, its parts do. *)
Lemma Marshal_Id_inl (id : option json.RawMessage) (doc : json.document) :
  json.Marshal id = inl doc ->
  (id = None /\ doc = json.d_null)
  \/ exists tid, id = Some tid /\ json.Valid tid = true /\ doc = json.d_raw tid.
Proof.
  unfold json.Marshal, json.RawMessage_ptr_Marshaler.
  destruct id as [tid |].
  - destruct (json.Valid tid) eqn:Hv; [| discriminate].
    intros [= <-]. right. exists tid. auto.
  - intros [= <-]. left. auto.
Qed.

Lemma Marshal_serverErrorResponse_inl (res : serverErrorResponse string)
    (doc : json.document) :
  json.Marshal res = inl doc ->
  exists tid,
    json.Marshal (eres_Id res) = inl tid
    /\ doc = json.d_object
               [("message", json.d_string (eres_Error res));
                ("tid", tid);
                ("type", json.d_string (eres_Type res));
                ("action", json.d_string (eres_Action res));
                ("method", json.d_string (eres_Method res))].
Proof.
  unfold json.Marshal at 1, serverErrorResponse_Marshaler.
  unfold json.Marshal at 1, json.string_Marshaler.
  destruct (json.Marshal (eres_Id res)) as [tid |]; [| discriminate].
  intros [= <-]. exists tid. auto.
Qed.

Lemma Marshal_serverResponse_inl {R : Type} `{json.Marshaler R}
    (res : serverResponse R) (doc : json.document) :
  json.Marshal res = inl doc ->
  exists result tid,
    json.Marshal (res_Result res) = inl result
    /\ json.Marshal (res_Id res) = inl tid
    /\ doc = json.d_object
               [("result", result);
                ("tid", tid);
                ("type", json.d_string (res_Type res));
                ("action", json.d_string (res_Action res));
                ("method", json.d_string (res_Method res))].
Proof.
  unfold json.Marshal at 1, serverResponse_Marshaler.
  destruct (json.Marshal (res_Result res)) as [result |]; [| discriminate].
  destruct (json.Marshal (res_Id res)) as [tid |]; [| discriminate].
  intros [= <-]. exists result, tid. auto.
Qed.

(** X9. A response that cannot be encoded or written is lost without a
    trace.  On a session with no captured error that owes a body (there is
    a dispatch error, or a [tid]), if the writer refuses the write, or the
    reply of a successful call cannot be marshalled, or the [tid] is not
    JSON, then [WriteResponse] has set the content type, has written no
    body, and returns nil. *)
Theorem WriteResponse_encoder_failure_is_silent {R : Type} `{json.Marshaler R}
    (c : CodecRequest) (w : http.ResponseWriter) (reply : R)
    (methodErr : option error) :
  err c = None ->
  (methodErr <> None \/ req_Id (request c) <> None) ->
  (http.broken w = true
   \/ (methodErr = None /\ exists e, json.Marshal reply = inr e)
   \/ (exists tid, req_Id (request c) = Some tid /\ json.Valid tid = false)) ->
  WriteResponse c w reply methodErr
  = (c, http.SetHeader "Content-Type" "application/json; charset=utf-8" w, None).
Proof.
  intros Hc Hbody Hfail.
  WriteResponse_paths c w methodErr; try reflexivity; try congruence; exfalso.
  - destruct Hfail as [Hw | [[Hme _] | (tid & Htid & Hinvalid)]]; try congruence.
    match goal with
    | Hdoc : json.Marshal _ = inl _ |- _ =>
        apply Marshal_serverErrorResponse_inl in Hdoc;
        destruct Hdoc as (t & Hid & _); simpl in Hid;
        apply Marshal_Id_inl in Hid
    end.
    destruct Hid as [[Hnil _] | (tid' & Hsome & Hvalid & _)]; congruence.
  - destruct Hfail as [Hw | [[_ [e He]] | (tid' & Htid & Hinvalid)]]; try congruence;
      match goal with
      | Hdoc : json.Marshal _ = inl _ |- _ =>
          apply Marshal_serverResponse_inl in Hdoc;
          destruct Hdoc as (r & t & Hr & Hid & _); simpl in Hr, Hid;
          apply Marshal_Id_inl in Hid
      end.
    + congruence.
    + destruct Hid as [[Hnil _] | (tid'' & Hsome & Hvalid & _)]; congruence.
  - destruct Hbody; congruence.
Qed.

Lemma WriteResponse_encoder_failure_is_silent_witness :
  err (calc_add None (Some "1 2")) = None
  /\ (@None error <> None \/ req_Id (request (calc_add None (Some "1 2"))) <> None)
  /\ (http.broken fresh_writer = true
      \/ (@None error = None /\ exists e, json.Marshal 3%Z = inr e)
      \/ (exists tid, req_Id (request (calc_add None (Some "1 2"))) = Some tid
                      /\ json.Valid tid = false))
  /\ WriteResponse (calc_add None (Some "1 2")) fresh_writer 3%Z None
     = (calc_add None (Some "1 2"),
        http.SetHeader "Content-Type" "application/json; charset=utf-8" fresh_writer,
        None).
Proof.
  assert (Hbody : @None error <> None
                  \/ req_Id (request (calc_add None (Some "1 2"))) <> None)
    by (right; simpl; discriminate).
  assert (Hfail : http.broken fresh_writer = true
                  \/ (@None error = None /\ exists e, json.Marshal 3%Z = inr e)
                  \/ (exists tid, req_Id (request (calc_add None (Some "1 2"))) = Some tid
                                  /\ json.Valid tid = false))
    by (right; right; exists "1 2"; split; reflexivity).
  split; [reflexivity | split; [exact Hbody | split; [exact Hfail |]]].
  exact (WriteResponse_encoder_failure_is_silent (calc_add None (Some "1 2"))
           fresh_writer 3%Z None eq_refl Hbody Hfail).
Defined.

(** X10. Whatever [WriteResponse] writes is an object of the five members
    of the wire format, in the order of the struct: the payload, [tid],
    [type], [action], [method].  [action] and [method] are the request's
    and [tid] is the request's as marshalled; with a dispatch error the
    payload is [message], the text of the error, and [type] is
    [exception]; without one the request has a [tid], the payload is
    [result], the reply as marshalled, and [type] is the request's. *)
Theorem WriteResponse_written_body {R : Type} `{json.Marshaler R}
    (c c' : CodecRequest) (w w' : http.ResponseWriter) (reply : R)
    (methodErr e : option error) (doc : json.document) :
  WriteResponse c w reply methodErr = (c', w', e) ->
  http.body w' = (http.body w ++ [doc])%list ->
  exists (name : string) (payload tid : json.document) (type : string),
    doc = json.d_object
            [(name, payload);
             ("tid", tid);
             ("type", json.d_string type);
             ("action", json.d_string (req_Action (request c)));
             ("method", json.d_string (req_Method (request c)))]
    /\ json.Marshal (req_Id (request c)) = inl tid
    /\ match methodErr with
       | Some me =>
           name = "message" /\ payload = json.d_string (Error me)
           /\ type = "exception"
       | None =>
           name = "result" /\ json.Marshal reply = inl payload
           /\ type = req_Type (request c) /\ req_Id (request c) <> None
       end.
Proof.
  assert (Hself : forall l : list json.document, l <> (l ++ [doc])%list).
  { intros l Hl. apply (f_equal (@length _)) in Hl.
    rewrite length_app in Hl. simpl in Hl. lia. }
  WriteResponse_paths c w methodErr; intros [= <- <- <-] Hw'; simpl in Hw';
    try (exfalso; exact (Hself _ Hw'));
    apply app_inv_head in Hw'; injection Hw' as <-.
  - match goal with
    | Hdoc : json.Marshal _ = inl _ |- _ =>
        apply Marshal_serverErrorResponse_inl in Hdoc;
        destruct Hdoc as (t & Hid & ->); simpl in Hid |- *
    end.
    exists "message", (json.d_string (Error me)), t, "exception". auto.
  - match goal with
    | Hdoc : json.Marshal _ = inl _ |- _ =>
        apply Marshal_serverResponse_inl in Hdoc;
        destruct Hdoc as (r & t & Hr & Hid & ->); simpl in Hr, Hid |- *
    end.
    exists "result", r, t, (req_Type (request c)).
    repeat split; try assumption; try reflexivity. congruence.
Qed.

Lemma WriteResponse_written_body_witness :
  http.body
    (snd (fst (WriteResponse (calc_add None None) fresh_writer 0%Z
                 (Some (errors.New "overflow")))))
  = (http.body fresh_writer
     ++ [json.d_object
           [("message", json.d_string "overflow"); ("tid", json.d_null);
            ("type", json.d_string "exception"); ("action", json.d_string "Calc");
            ("method", json.d_string "Add")]])%list
  /\ exists (name : string) (payload tid : json.document) (type : string),
       json.d_object
         [("message", json.d_string "overflow"); ("tid", json.d_null);
          ("type", json.d_string "exception"); ("action", json.d_string "Calc");
          ("method", json.d_string "Add")]
       = json.d_object
           [(name, payload);
            ("tid", tid);
            ("type", json.d_string type);
            ("action", json.d_string (req_Action (request (calc_add None None))));
            ("method", json.d_string (req_Method (request (calc_add None None))))]
       /\ json.Marshal (req_Id (request (calc_add None None))) = inl tid
       /\ name = "message" /\ payload = json.d_string (Error (errors.New "overflow"))
       /\ type = "exception".
Proof.
  split; [reflexivity |].
  exact (WriteResponse_written_body (calc_add None None) _ fresh_writer _ 0%Z
           (Some (errors.New "overflow")) _ _ eq_refl eq_refl).
Defined.

(** X11. A [ReadRequest] that returned nil makes no difference to the
    response: on the session it returns, [WriteResponse] writes and
    returns what it would have on the session before the call.  (That
    [ReadRequest] may have replaced a nil [data] by null does not show.) *)
Theorem WriteResponse_after_ReadRequest {T R : Type}
    `{json.Unmarshaler T} `{json.Marshaler R}
    (c c' : CodecRequest) (args args' : T)
    (w : http.ResponseWriter) (reply : R) (methodErr : option error) :
  ReadRequest c args = (c', args', None) ->
  WriteResponse c' w reply methodErr
  = (c', snd (fst (WriteResponse c w reply methodErr)),
     snd (WriteResponse c w reply methodErr)).
Proof.
  intros Hread.
  pose proof (ReadRequest_returns_slot c c' args args' None Hread) as Hslot.
  destruct (ReadRequest_keeps_fields c c' args args' None Hread)
    as (Hid & Hty & Hact & Hmeth).
  assert (Hc : err c = None).
  { unfold ReadRequest in Hread. destruct (err c) as [e |] eqn:Hc; [| reflexivity].
    injection Hread as _ _ He. exact He. }
  unfold WriteResponse. rewrite Hslot, Hc, Hid, Hty, Hact, Hmeth.
  destruct methodErr as [me |].
  - destruct (Encoder.Encode _ _) as [w2 e2]. reflexivity.
  - destruct (req_Id (request c)) as [tid |]; [| reflexivity].
    destruct (Encoder.Encode _ _) as [w2 e2]. reflexivity.
Qed.

Lemma WriteResponse_after_ReadRequest_witness :
  ReadRequest (calc_add None (Some "1")) 7%Z
  = (calc_add (Some null) (Some "1"), 7%Z, None)
  /\ WriteResponse (calc_add (Some null) (Some "1")) fresh_writer 3%Z None
     = (calc_add (Some null) (Some "1"),
        snd (fst (WriteResponse (calc_add None (Some "1")) fresh_writer 3%Z None)),
        snd (WriteResponse (calc_add None (Some "1")) fresh_writer 3%Z None)).
Proof.
  split; [reflexivity |].
  exact (WriteResponse_after_ReadRequest (calc_add None (Some "1")) _ 7%Z 7%Z
           fresh_writer 3%Z None eq_refl).
Defined.

(* ================================================================== *)
(** ** Facts about the decoder model *)
(* ================================================================== *)

(** *** Texts *)

Lemma append_cons (c : ascii) (s t : string) : String c s ++ t = String c (s ++ t).
Proof. reflexivity. Qed.

Lemma append_nil_l (t : string) : "" ++ t = t.
Proof. reflexivity. Qed.

Lemma append_nil_r (s : string) : s ++ "" = s.
Proof.
  induction s as [| c s IH]; [reflexivity |].
  rewrite append_cons, IH. reflexivity.
Qed.

Lemma append_assoc (a b c : string) : (a ++ b) ++ c = a ++ (b ++ c).
Proof.
  induction a as [| x a IH]; [reflexivity |].
  rewrite !append_cons, IH. reflexivity.
Qed.

Lemma length_append (a b : string) :
  String.length (a ++ b) = String.length a + String.length b.
Proof.
  induction a as [| x a IH]; [reflexivity |].
  rewrite append_cons. simpl. rewrite IH. reflexivity.
Qed.

Lemma take_append (p rest : string) : Decoder.take (String.length p) (p ++ rest) = p.
Proof.
  induction p as [| c p IH]; [destruct rest; reflexivity |].
  rewrite append_cons. simpl. rewrite IH. reflexivity.
Qed.

Lemma text_before_append (p rest : string) : Decoder.text_before (p ++ rest) rest = p.
Proof.
  unfold Decoder.text_before. rewrite length_append.
  replace (String.length p + String.length rest - String.length rest)
    with (String.length p) by lia.
  apply take_append.
Qed.

(** *** Space *)

Lemma skip_space_head (s r : string) (c : ascii) :
  json.skip_space s = String c r -> json.isSpace c = false.
Proof.
  induction s as [| x s IH]; simpl; [discriminate |].
  destruct (json.isSpace x) eqn:Hx; [exact IH |].
  intros [= <- _]. exact Hx.
Qed.

Lemma skip_space_nonspace (c : ascii) (s : string) :
  json.isSpace c = false -> json.skip_space (String c s) = String c s.
Proof. intros Hc. simpl. rewrite Hc. reflexivity. Qed.

(** A text is its leading space followed by the rest. *)
Lemma skip_space_split (s : string) :
  exists ws, s = ws ++ json.skip_space s
             /\ forall t, json.skip_space (ws ++ t) = json.skip_space t.
Proof.
  induction s as [| x s (ws & Hs & Hws)]; simpl.
  - exists "". split; [reflexivity | intros t; reflexivity].
  - destruct (json.isSpace x) eqn:Hx.
    + exists (String x ws). split.
      * rewrite append_cons, <- Hs. reflexivity.
      * intros t. rewrite append_cons. simpl. rewrite Hx. apply Hws.
    + exists "". split; [reflexivity | intros t; reflexivity].
Qed.

Lemma isSpace_stops (c : ascii) (r : string) : json.isSpace c = true -> stops (String c r).
Proof.
  unfold json.isSpace. intros Hc.
  repeat (apply orb_prop in Hc; destruct Hc as [Hc | Hc]);
    apply Ascii.eqb_eq in Hc; subst c; simpl; repeat split; congruence.
Qed.

Lemma space_then_stops (ws t : string) :
  (forall u, json.skip_space (ws ++ u) = json.skip_space u) ->
  stops t -> t <> "" -> stops (ws ++ t).
Proof.
  intros Hws Ht Hne. destruct ws as [| c ws]; [exact Ht |].
  rewrite append_cons. destruct (json.isSpace c) eqn:Hc.
  - exact (isSpace_stops c (ws ++ t) Hc).
  - exfalso. specialize (Hws t). rewrite append_cons in Hws.
    simpl in Hws. rewrite Hc in Hws.
    destruct t as [| x t]; [congruence |].
    assert (Hlen := f_equal String.length Hws). simpl in Hlen.
    pose proof (skip_space_length (String x t)) as Hle. simpl in Hle.
    rewrite length_append in Hlen. simpl in Hlen. lia.
Qed.

(** *** The scanners read a prefix and do not look beyond it *)

Lemma scan_string_local (s body rest : string) :
  json.scan_string s = Some (body, rest) ->
  exists p, s = p ++ rest
            /\ forall r2, json.scan_string (p ++ r2) = Some (body, r2).
Proof.
  remember (String.length s) as n eqn:Hn.
  assert (Hle : String.length s <= n) by lia. clear Hn.
  revert s body rest Hle.
  induction n as [| n IH]; intros s body rest Hle.
  - destruct s; [discriminate | simpl in Hle; lia].
  - destruct s as [| c s1]; [discriminate |]. simpl in Hle. simpl.
    destruct (c =? json.dquote)%char eqn:Hq.
    { intros [= <- <-]. exists (String c ""). split; [reflexivity |].
      intros r2. rewrite ?append_cons. simpl. rewrite Hq. reflexivity. }
    destruct (c =? json.backslash)%char eqn:Hb.
    { destruct s1 as [| e s2]; [discriminate |]. simpl in Hle.
      destruct (json.is_escape e) eqn:He.
      { destruct (json.scan_string s2) as [[b r] |] eqn:Hs2; [| discriminate].
        intros [= <- <-]. destruct (IH s2 b r) as (p & -> & Hp); [lia | exact Hs2 |].
        exists (String c (String e p)). split; [reflexivity |].
        intros r2. rewrite ?append_cons. simpl. rewrite Hq, Hb, He, Hp. reflexivity. }
      destruct (e =? "u")%char eqn:Hu; [| discriminate].
      destruct s2 as [| h1 [| h2 [| h3 [| h4 s3]]]]; try discriminate.
      destruct (json.is_hex h1 && json.is_hex h2 && json.is_hex h3 && json.is_hex h4)
        eqn:Hhex; [| discriminate].
      destruct (json.scan_string s3) as [[b r] |] eqn:Hs3; [| discriminate].
      intros [= <- <-]. simpl in Hle.
      destruct (IH s3 b r) as (p & -> & Hp); [lia | exact Hs3 |].
      exists (String c (String e (String h1 (String h2 (String h3 (String h4 p)))))).
      split; [reflexivity |].
      intros r2. rewrite ?append_cons. simpl. rewrite Hq, Hb, He, Hu, Hhex, Hp.
      reflexivity. }
    destruct (nat_of_ascii c <? 32)%nat eqn:Hctl; [discriminate |].
    destruct (json.scan_string s1) as [[b r] |] eqn:Hs1; [| discriminate].
    intros [= <- <-]. destruct (IH s1 b r) as (p & -> & Hp); [lia | exact Hs1 |].
    exists (String c p). split; [reflexivity |].
    intros r2. rewrite ?append_cons. simpl. rewrite Hq, Hb, Hctl, Hp. reflexivity.
Qed.

Lemma strip_prefix_local (p s rest : string) :
  json.strip_prefix p s = Some rest ->
  s = p ++ rest /\ forall r2, json.strip_prefix p (p ++ r2) = Some r2.
Proof.
  revert s. induction p as [| a p IH]; intros s; simpl.
  - intros [= <-]. split; [reflexivity | intros r2; reflexivity].
  - destruct s as [| b s']; [discriminate |].
    destruct (a =? b)%char eqn:Hab; [| discriminate].
    apply Ascii.eqb_eq in Hab. subst b.
    intros H. destruct (IH s' H) as [-> Hp]. split; [reflexivity |].
    intros r2. rewrite ?append_cons. simpl. rewrite Ascii.eqb_refl. apply Hp.
Qed.

Lemma span_digits_local (s ds rest : string) :
  json.span_digits s = (ds, rest) ->
  s = ds ++ rest
  /\ no_digit rest
  /\ forall r2, no_digit r2 -> json.span_digits (ds ++ r2) = (ds, r2).
Proof.
  revert ds rest. induction s as [| c s IH]; simpl; intros ds rest Hs.
  - injection Hs as <- <-. repeat split.
    intros [| x r2] Hr2; simpl; [reflexivity |]. simpl in Hr2. rewrite Hr2. reflexivity.
  - destruct (json.is_digit c) eqn:Hc.
    + destruct (json.span_digits s) as [ds' rest'].
      injection Hs as <- <-. destruct (IH ds' rest' eq_refl) as (-> & Hrest & Hloc).
      repeat split; [exact Hrest |].
      intros r2 Hr2. rewrite ?append_cons. simpl. rewrite Hc, (Hloc r2 Hr2). reflexivity.
    + injection Hs as <- <-. repeat split; [exact Hc |].
      intros [| x r2] Hr2; simpl; [reflexivity |]. simpl in Hr2. rewrite Hr2. reflexivity.
Qed.

Lemma scan_digits1_local (s ds rest : string) :
  json.scan_digits1 s = Some (ds, rest) ->
  s = ds ++ rest
  /\ ds <> ""
  /\ no_digit rest
  /\ forall r2, no_digit r2 -> json.scan_digits1 (ds ++ r2) = Some (ds, r2).
Proof.
  unfold json.scan_digits1. destruct (json.span_digits s) as [ds' rest'] eqn:Hs.
  destruct (span_digits_local _ _ _ Hs) as (-> & Hrest & Hloc).
  destruct ds' as [| c ds']; [discriminate |].
  intros [= <- <-]. repeat split; [discriminate | exact Hrest |].
  intros r2 Hr2. rewrite (Hloc r2 Hr2). reflexivity.
Qed.

Lemma scan_magnitude_local (s ds rest : string) :
  json.scan_magnitude s = Some (ds, rest) ->
  s = ds ++ rest
  /\ forall r2, no_digit r2 -> json.scan_magnitude (ds ++ r2) = Some (ds, r2).
Proof.
  unfold json.scan_magnitude. destruct s as [| c s']; [discriminate |].
  destruct (c =? "0")%char eqn:Hc.
  - intros [= <- <-]. apply Ascii.eqb_eq in Hc. subst c. split; [reflexivity |].
    intros r2 _. reflexivity.
  - intros Hs. destruct (scan_digits1_local _ _ _ Hs) as (Heq & Hne & _ & Hloc).
    split; [exact Heq |].
    destruct ds as [| x ds']; [congruence |].
    rewrite append_cons in Heq. injection Heq as <- _.
    intros r2 Hr2. rewrite append_cons, Hc, <- append_cons. exact (Hloc r2 Hr2).
Qed.

Lemma scan_int_local (s lit rest : string) :
  json.scan_int s = Some (lit, rest) ->
  s = lit ++ rest
  /\ forall r2, no_digit r2 -> json.scan_int (lit ++ r2) = Some (lit, r2).
Proof.
  unfold json.scan_int. destruct s as [| c s']; [discriminate |].
  destruct (c =? "-")%char eqn:Hc.
  - destruct (json.scan_magnitude s') as [[ds r] |] eqn:Hm; [| discriminate].
    intros [= <- <-]. destruct (scan_magnitude_local _ _ _ Hm) as (-> & Hloc).
    split; [reflexivity |].
    intros r2 Hr2. rewrite append_cons, Hc, (Hloc r2 Hr2). reflexivity.
  - intros Hm. destruct (scan_magnitude_local _ _ _ Hm) as (Heq & Hloc).
    split; [exact Heq |].
    destruct lit as [| x lit'].
    { unfold json.scan_magnitude in Hm. destruct (c =? "0")%char; [discriminate |].
      apply scan_digits1_local in Hm. destruct Hm as (_ & Hne & _). congruence. }
    rewrite append_cons in Heq. injection Heq as <- _.
    intros r2 Hr2. rewrite append_cons, Hc, <- append_cons. exact (Hloc r2 Hr2).
Qed.

Lemma scan_frac_local (s lit rest : string) :
  json.scan_frac s = Some (lit, rest) ->
  s = lit ++ rest
  /\ (lit = "" \/ exists lit', lit = String "." lit')
  /\ forall r2, no_digit r2 -> (lit = "" -> not_first "." r2) ->
                json.scan_frac (lit ++ r2) = Some (lit, r2).
Proof.
  unfold json.scan_frac. destruct s as [| c s'].
  - intros [= <- <-]. split; [reflexivity | split; [auto |]].
    intros [| x r2] _ Hdot; [reflexivity |].
    specialize (Hdot eq_refl). simpl in Hdot. rewrite append_nil_l.
    destruct (x =? ".")%char eqn:Hx; [apply Ascii.eqb_eq in Hx; congruence | reflexivity].
  - destruct (c =? ".")%char eqn:Hc.
    + destruct (json.scan_digits1 s') as [[ds r] |] eqn:Hds; [| discriminate].
      intros [= <- <-]. destruct (scan_digits1_local _ _ _ Hds) as (-> & _ & _ & Hloc).
      apply Ascii.eqb_eq in Hc. subst c.
      split; [reflexivity | split; [right; eexists; reflexivity |]].
      intros r2 Hr2 _. change ("." ++ ds) with (String "." ds).
      rewrite append_cons. simpl. rewrite (Hloc r2 Hr2). reflexivity.
    + intros [= <- <-]. split; [reflexivity | split; [auto |]].
      intros [| x r2] _ Hdot; [reflexivity |].
      specialize (Hdot eq_refl). simpl in Hdot. rewrite append_nil_l.
      destruct (x =? ".")%char eqn:Hx; [apply Ascii.eqb_eq in Hx; congruence | reflexivity].
Qed.

Lemma scan_exp_local (s lit rest : string) :
  json.scan_exp s = Some (lit, rest) ->
  s = lit ++ rest
  /\ (lit = "" \/ exists lit', lit = String "e" lit' \/ lit = String "E" lit')
  /\ forall r2, no_digit r2 -> (lit = "" -> not_first "e" r2 /\ not_first "E" r2) ->
                json.scan_exp (lit ++ r2) = Some (lit, r2).
Proof.
  assert (Hnone : forall r2, not_first "e" r2 /\ not_first "E" r2 ->
                             json.scan_exp r2 = Some ("", r2)).
  { intros [| x r2] [He HE]; [reflexivity |]. simpl in He, HE. unfold json.scan_exp.
    destruct (x =? "e")%char eqn:H1; [apply Ascii.eqb_eq in H1; congruence |].
    destruct (x =? "E")%char eqn:H2; [apply Ascii.eqb_eq in H2; congruence |].
    reflexivity. }
  unfold json.scan_exp. destruct s as [| e s'].
  - intros [= <- <-]. split; [reflexivity | split; [auto |]].
    intros r2 _ Hr2. rewrite append_nil_l. exact (Hnone r2 (Hr2 eq_refl)).
  - destruct ((e =? "e")%char || (e =? "E")%char) eqn:He.
    + assert (Hhead : forall lit', String e lit' = String "e" lit' \/ String e lit' = String "E" lit').
      { intros lit'. apply orb_prop in He.
        destruct He as [He | He]; apply Ascii.eqb_eq in He; subst e; auto. }
      destruct s' as [| c s2].
      { simpl. discriminate. }
      destruct ((c =? "+")%char || (c =? "-")%char) eqn:Hsign.
      * destruct (json.scan_digits1 s2) as [[ds r] |] eqn:Hds; [| discriminate].
        intros [= <- <-]. destruct (scan_digits1_local _ _ _ Hds) as (-> & _ & _ & Hloc).
        split; [reflexivity | split; [right; eexists; apply Hhead |]].
        intros r2 Hr2 _. rewrite ?append_cons, ?append_nil_l, ?append_cons.
        rewrite He, Hsign, (Hloc r2 Hr2). reflexivity.
      * destruct (json.scan_digits1 (String c s2)) as [[ds r] |] eqn:Hds; [| discriminate].
        intros [= <- <-].
        destruct (scan_digits1_local _ _ _ Hds) as (Heq & Hne & _ & Hloc).
        rewrite append_nil_l.
        split; [rewrite append_cons, <- Heq; reflexivity |].
        split; [right; eexists; apply Hhead |].
        intros r2 Hr2 _. destruct ds as [| x ds']; [congruence |].
        rewrite append_cons in Heq. injection Heq as <- _.
        rewrite ?append_cons. rewrite He, Hsign.
        rewrite <- append_cons, (Hloc r2 Hr2). reflexivity.
    + intros [= <- <-]. split; [reflexivity | split; [auto |]].
      intros r2 _ Hr2. rewrite append_nil_l. exact (Hnone r2 (Hr2 eq_refl)).
Qed.

Lemma scan_number_local (s lit rest : string) :
  json.scan_number s = Some (lit, rest) ->
  s = lit ++ rest
  /\ forall r2, stops r2 -> json.scan_number (lit ++ r2) = Some (lit, r2).
Proof.
  unfold json.scan_number.
  destruct (json.scan_int s) as [[i r1] |] eqn:Hi; [| discriminate].
  destruct (json.scan_frac r1) as [[f r2] |] eqn:Hf; [| discriminate].
  destruct (json.scan_exp r2) as [[e r3] |] eqn:He; [| discriminate].
  intros [= <- <-].
  destruct (scan_int_local _ _ _ Hi) as (-> & Hiloc).
  destruct (scan_frac_local _ _ _ Hf) as (-> & Hfshape & Hfloc).
  destruct (scan_exp_local _ _ _ He) as (-> & Heshape & Heloc).
  split; [rewrite !append_assoc; reflexivity |].
  intros x Hx.
  assert (Hx_digit : no_digit x)
    by (destruct x; [exact I | simpl in Hx |- *; tauto]).
  assert (Hx_dot : not_first "." x)
    by (destruct x; [exact I | simpl in Hx |- *; tauto]).
  assert (Hx_e : not_first "e" x /\ not_first "E" x)
    by (destruct x; [split; exact I | simpl in Hx |- *; tauto]).
  assert (He_digit : no_digit (e ++ x)).
  { destruct Heshape as [-> | (e' & [-> | ->])]; [exact Hx_digit | |];
      rewrite append_cons; reflexivity. }
  assert (He_dot : not_first "." (e ++ x)).
  { destruct Heshape as [-> | (e' & [-> | ->])]; [exact Hx_dot | |];
      rewrite append_cons; simpl; congruence. }
  assert (Hf_digit : no_digit (f ++ e ++ x)).
  { destruct Hfshape as [-> | (f' & ->)]; [exact He_digit |].
    rewrite append_cons. reflexivity. }
  rewrite !append_assoc.
  rewrite (Hiloc _ Hf_digit).
  rewrite (Hfloc _ He_digit (fun _ => He_dot)).
  rewrite (Heloc _ Hx_digit (fun _ => Hx_e)).
  reflexivity.
Qed.

(** *** The descent reads a prefix and does not look beyond it *)

Lemma skip_space_to (s r : string) (c : ascii) :
  json.skip_space s = String c r ->
  exists ws, s = ws ++ String c r
             /\ forall t, json.skip_space (ws ++ String c t) = String c t.
Proof.
  intros Hs. destruct (skip_space_split s) as (ws & Heq & Hws).
  exists ws. rewrite Hs in Heq. split; [exact Heq |].
  intros t. rewrite Hws. apply skip_space_nonspace. exact (skip_space_head _ _ _ Hs).
Qed.

Lemma nonempty_prefix (s p rest : string) :
  s = p ++ rest -> String.length rest < String.length s ->
  exists x p', p = String x p'.
Proof.
  intros -> Hlen. destruct p as [| x p']; [rewrite append_nil_l in Hlen; lia |].
  eauto.
Qed.

Lemma follows_separator (v : json.value) (ws t : string) (c : ascii) :
  (forall u, json.skip_space (ws ++ String c u) = String c u) ->
  json.is_digit c = false -> c <> "."%char -> c <> "e"%char -> c <> "E"%char ->
  follows v (ws ++ String c t).
Proof.
  intros Hws H1 H2 H3 H4.
  assert (Hstops : stops (ws ++ String c t)).
  { destruct ws as [| x ws]; [simpl; auto |].
    rewrite append_cons. destruct (json.isSpace x) eqn:Hx.
    - exact (isSpace_stops x _ Hx).
    - exfalso. specialize (Hws t). rewrite append_cons in Hws.
      rewrite (skip_space_nonspace _ _ Hx) in Hws.
      assert (Hlen := f_equal String.length Hws). simpl in Hlen.
      rewrite length_append in Hlen. simpl in Hlen. lia. }
  destruct v; simpl; auto.
Qed.

Section Local.
#[local] Arguments json.strip_prefix : simpl never.
#[local] Arguments json.scan_string : simpl never.
#[local] Arguments json.scan_number : simpl never.
#[local] Arguments json.skip_space : simpl never.

Variable n : nat.
Hypothesis IHv :
  forall d s v rest,
    json.parse_value n d s = Some (v, rest) ->
    exists p, s = p ++ rest
              /\ forall r2, follows v r2 -> json.parse_value n d (p ++ r2) = Some (v, r2).
Hypothesis IHe :
  forall d s vs rest,
    json.parse_elements n d s = Some (vs, rest) ->
    exists p, s = p ++ rest
              /\ forall r2, json.parse_elements n d (p ++ r2) = Some (vs, r2).
Hypothesis IHm :
  forall d s ms rest,
    json.parse_members n d s = Some (ms, rest) ->
    exists p, s = p ++ rest
              /\ forall r2, json.parse_members n d (p ++ r2) = Some (ms, r2).

Lemma local_value_step :
  forall d s v rest,
    json.parse_value (S n) d s = Some (v, rest) ->
    exists p, s = p ++ rest
              /\ forall r2, follows v r2 ->
                            json.parse_value (S n) d (p ++ r2) = Some (v, r2).
Proof.
  intros d s v rest Hp. simpl in Hp.
  destruct s as [| c s']; [discriminate |].
  destruct (c =? "[")%char eqn:Hc1.
  { destruct (json.maxNestingDepth <? d + 1)%N eqn:Hd; [discriminate |].
    destruct (json.skip_space s') as [| c1 r1] eqn:Hs1; [discriminate |].
    destruct (skip_space_to _ _ _ Hs1) as (ws & -> & Hws).
    destruct (c1 =? "]")%char eqn:Hc2.
    - injection Hp as <- <-. exists (String c (ws ++ String c1 "")).
      split; [rewrite append_cons, append_assoc; reflexivity |].
      intros r2 _. rewrite append_cons, append_assoc, append_cons, append_nil_l.
      simpl. rewrite Hc1, Hd, Hws, Hc2. reflexivity.
    - destruct (json.parse_elements n (d + 1) (String c1 r1)) as [[vs r] |] eqn:He;
        [| discriminate].
      injection Hp as <- <-.
      destruct (IHe _ _ _ _ He) as (pe & Heq & Hloc).
      destruct (enough_fuel n) as (_ & Hfe & _). destruct (Hfe _ _ _ _ He) as [Hlen _].
      destruct (nonempty_prefix _ _ _ Heq Hlen) as (x & pe' & ->).
      rewrite append_cons in Heq. injection Heq as <- ->.
      exists (String c (ws ++ String c1 pe')).
      split; [rewrite append_cons, append_assoc; reflexivity |].
      intros r2 _. rewrite append_cons, append_assoc, append_cons.
      simpl. rewrite Hc1, Hd, Hws, Hc2.
      rewrite <- append_cons, Hloc. reflexivity. }
  destruct (c =? "{")%char eqn:Hc2.
  { destruct (json.maxNestingDepth <? d + 1)%N eqn:Hd; [discriminate |].
    destruct (json.skip_space s') as [| c1 r1] eqn:Hs1; [discriminate |].
    destruct (skip_space_to _ _ _ Hs1) as (ws & -> & Hws).
    destruct (c1 =? "}")%char eqn:Hc3.
    - injection Hp as <- <-. exists (String c (ws ++ String c1 "")).
      split; [rewrite append_cons, append_assoc; reflexivity |].
      intros r2 _. rewrite append_cons, append_assoc, append_cons, append_nil_l.
      simpl. rewrite Hc1, Hc2, Hd, Hws, Hc3. reflexivity.
    - destruct (json.parse_members n (d + 1) (String c1 r1)) as [[ms r] |] eqn:He;
        [| discriminate].
      injection Hp as <- <-.
      destruct (IHm _ _ _ _ He) as (pe & Heq & Hloc).
      destruct (enough_fuel n) as (_ & _ & Hfm). destruct (Hfm _ _ _ _ He) as [Hlen _].
      destruct (nonempty_prefix _ _ _ Heq Hlen) as (x & pe' & ->).
      rewrite append_cons in Heq. injection Heq as <- ->.
      exists (String c (ws ++ String c1 pe')).
      split; [rewrite append_cons, append_assoc; reflexivity |].
      intros r2 _. rewrite append_cons, append_assoc, append_cons.
      simpl. rewrite Hc1, Hc2, Hd, Hws, Hc3.
      rewrite <- append_cons, Hloc. reflexivity. }
  destruct (c =? json.dquote)%char eqn:Hc3.
  { destruct (json.scan_string s') as [[b r] |] eqn:Hs; [| discriminate].
    injection Hp as <- <-. destruct (scan_string_local _ _ _ Hs) as (p & -> & Hloc).
    exists (String c p). split; [reflexivity |].
    intros r2 _. rewrite append_cons. simpl. rewrite Hc1, Hc2, Hc3, Hloc. reflexivity. }
  destruct (c =? "n")%char eqn:Hc4.
  { destruct (json.strip_prefix "ull" s') as [r |] eqn:Hs; [| discriminate].
    simpl in Hp. injection Hp as <- <-.
    destruct (strip_prefix_local _ _ _ Hs) as (-> & Hloc).
    exists (String c "ull"). split; [reflexivity |].
    intros r2 _. rewrite append_cons. specialize (Hloc r2).
    remember ("ull" ++ r2) as t eqn:Ht. simpl.
    rewrite Hc1, Hc2, Hc3, Hc4, Hloc. reflexivity. }
  destruct (c =? "t")%char eqn:Hc5.
  { destruct (json.strip_prefix "rue" s') as [r |] eqn:Hs; [| discriminate].
    simpl in Hp. injection Hp as <- <-.
    destruct (strip_prefix_local _ _ _ Hs) as (-> & Hloc).
    exists (String c "rue"). split; [reflexivity |].
    intros r2 _. rewrite append_cons. specialize (Hloc r2).
    remember ("rue" ++ r2) as t eqn:Ht. simpl.
    rewrite Hc1, Hc2, Hc3, Hc4, Hc5, Hloc. reflexivity. }
  destruct (c =? "f")%char eqn:Hc6.
  { destruct (json.strip_prefix "alse" s') as [r |] eqn:Hs; [| discriminate].
    simpl in Hp. injection Hp as <- <-.
    destruct (strip_prefix_local _ _ _ Hs) as (-> & Hloc).
    exists (String c "alse"). split; [reflexivity |].
    intros r2 _. rewrite append_cons. specialize (Hloc r2).
    remember ("alse" ++ r2) as t eqn:Ht. simpl.
    rewrite Hc1, Hc2, Hc3, Hc4, Hc5, Hc6, Hloc. reflexivity. }
  destruct (json.scan_number (String c s')) as [[lit r] |] eqn:Hs; [| discriminate].
  injection Hp as <- <-.
  destruct (scan_number_local _ _ _ Hs) as (Heq & Hloc).
  pose proof (scan_number_length _ _ _ Hs) as Hlen.
  destruct (nonempty_prefix _ _ _ Heq Hlen) as (x & lit' & ->).
  exists (String x lit'). split; [exact Heq |].
  rewrite append_cons in Heq. injection Heq as <- _.
  intros r2 Hr2. simpl in Hr2. rewrite append_cons. simpl.
  rewrite Hc1, Hc2, Hc3, Hc4, Hc5, Hc6. rewrite <- append_cons, (Hloc r2 Hr2).
  reflexivity.
Qed.

Lemma local_elements_step :
  forall d s vs rest,
    json.parse_elements (S n) d s = Some (vs, rest) ->
    exists p, s = p ++ rest
              /\ forall r2, json.parse_elements (S n) d (p ++ r2) = Some (vs, r2).
Proof.
  intros d s vs rest Hp. simpl in Hp.
  destruct (json.parse_value n d s) as [[v r] |] eqn:Hv; [| discriminate].
  destruct (IHv _ _ _ _ Hv) as (pv & -> & Hvloc).
  destruct (json.skip_space r) as [| c r'] eqn:Hr; [discriminate |].
  destruct (skip_space_to _ _ _ Hr) as (ws & -> & Hws).
  destruct (c =? ",")%char eqn:Hc.
  - apply Ascii.eqb_eq in Hc. subst c.
    destruct (json.parse_elements n d (json.skip_space r')) as [[vs' rest'] |] eqn:He;
      [| discriminate].
    injection Hp as <- <-.
    destruct (IHe _ _ _ _ He) as (pe & Heq & Heloc).
    destruct (enough_fuel n) as (_ & Hfe & _). destruct (Hfe _ _ _ _ He) as [Hlen _].
    destruct (nonempty_prefix _ _ _ Heq Hlen) as (x & pe' & ->).
    rewrite append_cons in Heq.
    destruct (skip_space_to _ _ _ Heq) as (ws' & -> & Hws').
    exists (pv ++ ws ++ String "," (ws' ++ String x pe')).
    split; [rewrite ?append_assoc, ?append_cons, ?append_assoc, ?append_cons; reflexivity |].
    intros r2. rewrite ?append_assoc, ?append_cons, ?append_assoc, ?append_cons.
    simpl. rewrite Hvloc by (apply follows_separator; [exact Hws | reflexivity | congruence ..]).
    rewrite Hws. simpl. rewrite Hws'.
    rewrite <- append_cons, Heloc. reflexivity.
  - destruct (c =? "]")%char eqn:Hc'; [| discriminate].
    apply Ascii.eqb_eq in Hc'. subst c.
    injection Hp as <- <-.
    exists (pv ++ ws ++ String "]" "").
    split; [rewrite ?append_assoc, ?append_cons, ?append_nil_l; reflexivity |].
    intros r2. rewrite ?append_assoc, ?append_cons, ?append_nil_l.
    simpl. rewrite Hvloc by (apply follows_separator; [exact Hws | reflexivity | congruence ..]).
    rewrite Hws. reflexivity.
Qed.

Lemma local_members_step :
  forall d s ms rest,
    json.parse_members (S n) d s = Some (ms, rest) ->
    exists p, s = p ++ rest
              /\ forall r2, json.parse_members (S n) d (p ++ r2) = Some (ms, r2).
Proof.
  intros d s ms rest Hp. simpl in Hp.
  destruct s as [| q s']; [discriminate |].
  destruct (q =? json.dquote)%char eqn:Hq; [| discriminate].
  destruct (json.scan_string s') as [[key r] |] eqn:Hkey; [| discriminate].
  destruct (scan_string_local _ _ _ Hkey) as (pk & -> & Hkloc).
  destruct (json.skip_space r) as [| colon r1] eqn:Hr; [discriminate |].
  destruct (skip_space_to _ _ _ Hr) as (ws0 & -> & Hws0).
  destruct (colon =? ":")%char eqn:Hcolon; [| discriminate].
  destruct (json.parse_value n d (json.skip_space r1)) as [[v r2] |] eqn:Hv;
    [| discriminate].
  destruct (IHv _ _ _ _ Hv) as (pv & Heqv & Hvloc).
  destruct (enough_fuel n) as (Hfv & _ & Hfm). destruct (Hfv _ _ _ _ Hv) as [Hlenv _].
  destruct (nonempty_prefix _ _ _ Heqv Hlenv) as (y & pv' & ->).
  rewrite append_cons in Heqv.
  destruct (skip_space_to _ _ _ Heqv) as (ws1 & -> & Hws1).
  destruct (json.skip_space r2) as [| c r3] eqn:Hr2; [discriminate |].
  destruct (skip_space_to _ _ _ Hr2) as (ws2 & -> & Hws2).
  destruct (c =? ",")%char eqn:Hc.
  - apply Ascii.eqb_eq in Hc. subst c.
    destruct (json.parse_members n d (json.skip_space r3)) as [[ms' rest'] |] eqn:Hms;
      [| discriminate].
    injection Hp as <- <-.
    destruct (IHm _ _ _ _ Hms) as (pm & Heq & Hmloc).
    destruct (Hfm _ _ _ _ Hms) as [Hlen _].
    destruct (nonempty_prefix _ _ _ Heq Hlen) as (x & pm' & ->).
    rewrite append_cons in Heq.
    destruct (skip_space_to _ _ _ Heq) as (ws3 & -> & Hws3).
    exists (String q (pk ++ ws0 ++ String colon
                        (ws1 ++ String y (pv' ++ ws2 ++ String "," (ws3 ++ String x pm'))))).
    split; [rewrite ?append_cons, ?append_assoc, ?append_cons, ?append_assoc,
              ?append_cons, ?append_assoc, ?append_cons, ?append_assoc, ?append_cons;
            reflexivity |].
    intros t. rewrite ?append_cons, ?append_assoc, ?append_cons, ?append_assoc,
                ?append_cons, ?append_assoc, ?append_cons, ?append_assoc, ?append_cons.
    simpl. rewrite Hq, Hkloc, Hws0, Hcolon, Hws1.
    rewrite <- append_cons.
    rewrite Hvloc by (apply follows_separator; [exact Hws2 | reflexivity | congruence ..]).
    rewrite Hws2. simpl. rewrite Hws3.
    rewrite <- append_cons, Hmloc. reflexivity.
  - destruct (c =? "}")%char eqn:Hc'; [| discriminate].
    apply Ascii.eqb_eq in Hc'. subst c.
    injection Hp as <- <-.
    exists (String q (pk ++ ws0 ++ String colon
                        (ws1 ++ String y (pv' ++ ws2 ++ String "}" "")))).
    split; [rewrite ?append_cons, ?append_assoc, ?append_cons, ?append_assoc,
              ?append_cons, ?append_assoc, ?append_cons, ?append_nil_l;
            reflexivity |].
    intros t. rewrite ?append_cons, ?append_assoc, ?append_cons, ?append_assoc,
                ?append_cons, ?append_assoc, ?append_cons, ?append_nil_l.
    simpl. rewrite Hq, Hkloc, Hws0, Hcolon, Hws1.
    rewrite <- append_cons.
    rewrite Hvloc by (apply follows_separator; [exact Hws2 | reflexivity | congruence ..]).
    rewrite Hws2. reflexivity.
Qed.

End Local.

Lemma descent_local (n : nat) :
  (forall d s v rest,
      json.parse_value n d s = Some (v, rest) ->
      exists p, s = p ++ rest
                /\ forall r2, follows v r2 -> json.parse_value n d (p ++ r2) = Some (v, r2))
  /\ (forall d s vs rest,
        json.parse_elements n d s = Some (vs, rest) ->
        exists p, s = p ++ rest
                  /\ forall r2, json.parse_elements n d (p ++ r2) = Some (vs, r2))
  /\ (forall d s ms rest,
        json.parse_members n d s = Some (ms, rest) ->
        exists p, s = p ++ rest
                  /\ forall r2, json.parse_members n d (p ++ r2) = Some (ms, r2)).
Proof.
  induction n as [| n (IHv & IHe & IHm)].
  - split; [| split]; intros d s x rest Hp; discriminate Hp.
  - split; [| split].
    + apply local_value_step; assumption.
    + apply local_elements_step; assumption.
    + apply local_members_step; assumption.
Qed.

(** *** Fewer open brackets never hurt *)

Section Depth.
#[local] Arguments json.strip_prefix : simpl never.
#[local] Arguments json.scan_string : simpl never.
#[local] Arguments json.scan_number : simpl never.
#[local] Arguments json.skip_space : simpl never.

Variable n : nat.
Hypothesis IHv :
  forall d d' s r, (d' <= d)%N ->
    json.parse_value n d s = Some r -> json.parse_value n d' s = Some r.
Hypothesis IHe :
  forall d d' s r, (d' <= d)%N ->
    json.parse_elements n d s = Some r -> json.parse_elements n d' s = Some r.
Hypothesis IHm :
  forall d d' s r, (d' <= d)%N ->
    json.parse_members n d s = Some r -> json.parse_members n d' s = Some r.

Lemma shallower_value_step :
  forall d d' s r, (d' <= d)%N ->
    json.parse_value (S n) d s = Some r -> json.parse_value (S n) d' s = Some r.
Proof.
  intros d d' s r Hd Hp. simpl in Hp |- *.
  destruct s as [| c s']; [discriminate |].
  assert (Hlimit : (json.maxNestingDepth <? d + 1)%N = false ->
                   (json.maxNestingDepth <? d' + 1)%N = false).
  { rewrite !N.ltb_ge. lia. }
  destruct (c =? "[")%char.
  { destruct (json.maxNestingDepth <? d + 1)%N eqn:Hmax; [discriminate |].
    rewrite (Hlimit eq_refl).
    destruct (json.skip_space s') as [| c1 r1]; [discriminate |].
    destruct (c1 =? "]")%char; [exact Hp |].
    destruct (json.parse_elements n (d + 1) (String c1 r1)) as [[vs r'] |] eqn:He;
      [| discriminate].
    rewrite (IHe (d + 1)%N (d' + 1)%N _ _ ltac:(lia) He). exact Hp. }
  destruct (c =? "{")%char.
  { destruct (json.maxNestingDepth <? d + 1)%N eqn:Hmax; [discriminate |].
    rewrite (Hlimit eq_refl).
    destruct (json.skip_space s') as [| c1 r1]; [discriminate |].
    destruct (c1 =? "}")%char; [exact Hp |].
    destruct (json.parse_members n (d + 1) (String c1 r1)) as [[ms r'] |] eqn:He;
      [| discriminate].
    rewrite (IHm (d + 1)%N (d' + 1)%N _ _ ltac:(lia) He). exact Hp. }
  exact Hp.
Qed.

Lemma shallower_elements_step :
  forall d d' s r, (d' <= d)%N ->
    json.parse_elements (S n) d s = Some r -> json.parse_elements (S n) d' s = Some r.
Proof.
  intros d d' s r Hd Hp. simpl in Hp |- *.
  destruct (json.parse_value n d s) as [[v r0] |] eqn:Hv; [| discriminate].
  rewrite (IHv d d' _ _ Hd Hv).
  destruct (json.skip_space r0) as [| c r']; [discriminate |].
  destruct (c =? ",")%char; [| exact Hp].
  destruct (json.parse_elements n d (json.skip_space r')) as [[vs rest] |] eqn:He;
    [| discriminate].
  rewrite (IHe d d' _ _ Hd He). exact Hp.
Qed.

Lemma shallower_members_step :
  forall d d' s r, (d' <= d)%N ->
    json.parse_members (S n) d s = Some r -> json.parse_members (S n) d' s = Some r.
Proof.
  intros d d' s r Hd Hp. simpl in Hp |- *.
  destruct s as [| q s']; [discriminate |].
  destruct (q =? json.dquote)%char; [| discriminate].
  destruct (json.scan_string s') as [[key r0] |]; [| discriminate].
  destruct (json.skip_space r0) as [| colon r1]; [discriminate |].
  destruct (colon =? ":")%char; [| discriminate].
  destruct (json.parse_value n d (json.skip_space r1)) as [[v r2] |] eqn:Hv;
    [| discriminate].
  rewrite (IHv d d' _ _ Hd Hv).
  destruct (json.skip_space r2) as [| c r3]; [discriminate |].
  destruct (c =? ",")%char; [| exact Hp].
  destruct (json.parse_members n d (json.skip_space r3)) as [[ms rest] |] eqn:Hm;
    [| discriminate].
  rewrite (IHm d d' _ _ Hd Hm). exact Hp.
Qed.

End Depth.

Lemma shallower (n : nat) :
  (forall d d' s r, (d' <= d)%N ->
      json.parse_value n d s = Some r -> json.parse_value n d' s = Some r)
  /\ (forall d d' s r, (d' <= d)%N ->
        json.parse_elements n d s = Some r -> json.parse_elements n d' s = Some r)
  /\ (forall d d' s r, (d' <= d)%N ->
        json.parse_members n d s = Some r -> json.parse_members n d' s = Some r).
Proof.
  induction n as [| n (IHv & IHe & IHm)].
  - split; [| split]; intros d d' s r _ Hp; discriminate Hp.
  - split; [| split].
    + apply shallower_value_step; assumption.
    + apply shallower_elements_step; assumption.
    + apply shallower_members_step; assumption.
Qed.

(** *** A value's text is a JSON text of its own *)

Lemma parse_value_head (n : nat) (d : N) (c : ascii) (s : string)
    (r : json.value * string) :
  json.parse_value n d (String c s) = Some r -> json.isSpace c = false.
Proof.
  destruct n as [| n]; [discriminate |].
  destruct (json.isSpace c) eqn:Hc; [| reflexivity].
  intros Hp. exfalso. unfold json.isSpace in Hc.
  repeat (apply orb_prop in Hc; destruct Hc as [Hc | Hc]);
    apply Ascii.eqb_eq in Hc; subst c; discriminate Hp.
Qed.

Lemma parse_text (n : nat) (d : N) (s rest : string) (v : json.value) :
  json.parse_value n d s = Some (v, rest) ->
  json.parse (Decoder.text_before s rest) = Some v.
Proof.
  intros Hp.
  destruct (descent_local n) as (Hloc & _ & _).
  destruct (Hloc _ _ _ _ Hp) as (p & -> & Hp').
  rewrite text_before_append.
  specialize (Hp' "" ltac:(destruct v; exact I)). rewrite append_nil_r in Hp'.
  destruct (shallower n) as (Hd & _ & _).
  apply (Hd d 0%N) in Hp'; [| lia].
  destruct (enough_fuel n) as (Hf & _ & _). destruct (Hf _ _ _ _ Hp') as [Hlen Hfuel].
  destruct p as [| c p']; [simpl in Hlen; lia |].
  unfold json.parse.
  rewrite (skip_space_nonspace _ _ (parse_value_head _ _ _ _ _ Hp')).
  rewrite Hfuel by (simpl; lia). reflexivity.
Qed.

(** *** The members of the body's object *)

Lemma scan_members_sound (n : nat) :
  forall s tms rest,
    Decoder.scan_members n s = Some (tms, rest) ->
    json.parse_members n 1 s = Some (map fst tms, rest)
    /\ Forall (fun m => json.parse (snd m) = Some (snd (fst m))) tms
    /\ exists pm,
         s = pm ++ rest
         /\ forall x m, String.length pm <= m ->
                        Decoder.scan_members m (pm ++ x) = Some (tms, x).
Proof.
  induction n as [| n IH]; intros s tms rest Hp; [discriminate |].
  simpl in Hp |- *.
  destruct s as [| q s']; [discriminate |].
  destruct (q =? json.dquote)%char eqn:Hq; [| discriminate].
  destruct (json.scan_string s') as [[key r] |] eqn:Hkey; [| discriminate].
  destruct (scan_string_local _ _ _ Hkey) as (pk & -> & Hkloc).
  destruct (json.skip_space r) as [| colon r1] eqn:Hr; [discriminate |].
  destruct (skip_space_to _ _ _ Hr) as (ws0 & -> & Hws0).
  destruct (colon =? ":")%char eqn:Hcolon; [| discriminate].
  destruct (json.parse_value n 1 (json.skip_space r1)) as [[v r2] |] eqn:Hv;
    [| discriminate].
  pose proof (parse_text _ _ _ _ _ Hv) as Htext.
  destruct (descent_local n) as (Hvlocal & _ & _).
  destruct (Hvlocal _ _ _ _ Hv) as (pv & Heqv & Hvloc).
  destruct (enough_fuel n) as (Hfv & _ & _). destruct (Hfv _ _ _ _ Hv) as [Hlenv _].
  destruct (nonempty_prefix _ _ _ Heqv Hlenv) as (y & pv' & ->).
  assert (Hvfuel : forall x m, follows v x -> String.length (String y pv') <= m ->
                     json.parse_value m 1 (String y pv' ++ x) = Some (v, x)).
  { intros x m Hx Hm. specialize (Hvloc x Hx).
    destruct (Hfv _ _ _ _ Hvloc) as [_ Hfuel]. apply Hfuel.
    rewrite length_append. lia. }
  rewrite Heqv in Htext, Hp. rewrite text_before_append in Htext, Hp.
  rewrite append_cons in Heqv.
  destruct (skip_space_to _ _ _ Heqv) as (ws1 & -> & Hws1).
  destruct (json.skip_space r2) as [| c r3] eqn:Hr2; [discriminate |].
  destruct (skip_space_to _ _ _ Hr2) as (ws2 & -> & Hws2).
  destruct (c =? ",")%char eqn:Hc.
  - apply Ascii.eqb_eq in Hc. subst c.
    destruct (Decoder.scan_members n (json.skip_space r3)) as [[tms' rest'] |] eqn:Hms;
      [| discriminate].
    injection Hp as <- <-.
    destruct (IH _ _ _ Hms) as (Hagree & Htexts & pm & Heq & Hmloc).
    rewrite Hagree. split; [reflexivity |].
    split; [constructor; [exact Htext | exact Htexts] |].
    destruct (enough_fuel n) as (_ & _ & Hfm).
    destruct (Hfm _ _ _ _ Hagree) as [Hlen _].
    destruct (nonempty_prefix _ _ _ Heq Hlen) as (x0 & pm' & ->).
    rewrite append_cons in Heq.
    destruct (skip_space_to _ _ _ Heq) as (ws3 & -> & Hws3).
    exists (String q (pk ++ ws0 ++ String colon
                        (ws1 ++ String y (pv' ++ ws2 ++ String "," (ws3 ++ String x0 pm'))))).
    split; [rewrite ?append_cons, ?append_assoc, ?append_cons, ?append_assoc,
              ?append_cons, ?append_assoc, ?append_cons, ?append_assoc, ?append_cons;
            reflexivity |].
    intros x m Hm. destruct m as [| m]; [simpl in Hm; lia |].
    simpl in Hm. rewrite ?length_append in Hm. simpl in Hm.
    rewrite ?length_append in Hm. simpl in Hm. rewrite ?length_append in Hm.
    simpl in Hm. rewrite ?length_append in Hm. simpl in Hm.
    rewrite ?append_cons, ?append_assoc, ?append_cons, ?append_assoc,
      ?append_cons, ?append_assoc, ?append_cons, ?append_assoc, ?append_cons.
    simpl. rewrite Hq, Hkloc, Hws0, Hcolon, Hws1.
    rewrite <- append_cons.
    rewrite Hvfuel;
      [| apply follows_separator; [exact Hws2 | reflexivity | congruence ..]
       | simpl; lia].
    rewrite text_before_append, Hws2. simpl. rewrite Hws3.
    rewrite <- append_cons, Hmloc by (simpl; lia). reflexivity.
  - destruct (c =? "}")%char eqn:Hc'; [| discriminate].
    apply Ascii.eqb_eq in Hc'. subst c.
    injection Hp as <- <-.
    split; [reflexivity |].
    split; [constructor; [exact Htext | constructor] |].
    exists (String q (pk ++ ws0 ++ String colon
                        (ws1 ++ String y (pv' ++ ws2 ++ String "}" "")))).
    split; [rewrite ?append_cons, ?append_assoc, ?append_cons, ?append_assoc,
              ?append_cons, ?append_assoc, ?append_cons, ?append_nil_l;
            reflexivity |].
    intros x m Hm. destruct m as [| m]; [simpl in Hm; lia |].
    simpl in Hm. rewrite ?length_append in Hm. simpl in Hm.
    rewrite ?length_append in Hm. simpl in Hm. rewrite ?length_append in Hm.
    simpl in Hm.
    rewrite ?append_cons, ?append_assoc, ?append_cons, ?append_assoc,
      ?append_cons, ?append_assoc, ?append_cons, ?append_nil_l.
    simpl. rewrite Hq, Hkloc, Hws0, Hcolon, Hws1.
    rewrite <- append_cons.
    rewrite Hvfuel;
      [| apply follows_separator; [exact Hws2 | reflexivity | congruence ..]
       | simpl; lia].
    rewrite text_before_append, Hws2. reflexivity.
Qed.

Lemma scan_members_complete (n : nat) :
  forall s ms rest,
    json.parse_members n 1 s = Some (ms, rest) ->
    exists tms, Decoder.scan_members n s = Some (tms, rest) /\ map fst tms = ms.
Proof.
  induction n as [| n IH]; intros s ms rest Hp; [discriminate |].
  simpl in Hp |- *.
  destruct s as [| q s']; [discriminate |].
  destruct (q =? json.dquote)%char; [| discriminate].
  destruct (json.scan_string s') as [[key r] |]; [| discriminate].
  destruct (json.skip_space r) as [| colon r1]; [discriminate |].
  destruct (colon =? ":")%char; [| discriminate].
  destruct (json.parse_value n 1 (json.skip_space r1)) as [[v r2] |]; [| discriminate].
  destruct (json.skip_space r2) as [| c r3]; [discriminate |].
  destruct (c =? ",")%char.
  - destruct (json.parse_members n 1 (json.skip_space r3)) as [[ms' rest'] |] eqn:Hms;
      [| discriminate].
    injection Hp as <- <-.
    destruct (IH _ _ _ Hms) as (tms & -> & <-).
    eexists. split; reflexivity.
  - destruct (c =? "}")%char; [| discriminate].
    injection Hp as <- <-. eexists. split; reflexivity.
Qed.

(** *** What [Decode] does with a JSON text *)

Lemma skip_space_append (s r t : string) (c : ascii) :
  json.skip_space s = String c r -> json.skip_space (s ++ t) = String c (r ++ t).
Proof.
  intros Hs. destruct (skip_space_to _ _ _ Hs) as (ws & -> & Hws).
  rewrite append_assoc, append_cons. apply Hws.
Qed.

Lemma parse_members_nonempty (n : nat) (d : N) (s rest : string)
    (ms : list (string * json.value)) :
  json.parse_members n d s = Some (ms, rest) -> ms <> [].
Proof.
  destruct n as [| n]; [discriminate |]. simpl.
  destruct s as [| q s']; [discriminate |].
  destruct (q =? json.dquote)%char; [| discriminate].
  destruct (json.scan_string s') as [[key r] |]; [| discriminate].
  destruct (json.skip_space r) as [| colon r1]; [discriminate |].
  destruct (colon =? ":")%char; [| discriminate].
  destruct (json.parse_value n d (json.skip_space r1)) as [[v r2] |]; [| discriminate].
  destruct (json.skip_space r2) as [| c r3]; [discriminate |].
  destruct (c =? ",")%char.
  - destruct (json.parse_members n d (json.skip_space r3)) as [[ms' rest'] |];
      [| discriminate].
    intros [= <- _]. discriminate.
  - destruct (c =? "}")%char; [| discriminate]. intros [= <- _]. discriminate.
Qed.

Section FirstValue.
#[local] Arguments json.strip_prefix : simpl never.
#[local] Arguments json.scan_string : simpl never.
#[local] Arguments json.scan_number : simpl never.
#[local] Arguments json.skip_space : simpl never.

(** The first value of a body, as the descent reads it. *)
Lemma Decode_first_value (body : string) (req : serverRequest)
    (v : json.value) (rest : string) :
  json.parse_value (S (String.length body)) 0 (json.skip_space body) = Some (v, rest) ->
  match v with
  | json.Object [] =>
      Decoder.Decode body req = (req, None)
      /\ exists x r1, json.skip_space body = String "{" x
                      /\ json.skip_space x = String "}" r1
  | json.Object ms =>
      exists tms pm x,
        map fst tms = ms
        /\ Forall (fun m => json.parse (snd m) = Some (snd (fst m))) tms
        /\ Decoder.Decode body req = fold_left Decoder.store_member tms (req, None)
        /\ json.skip_space body = String "{" x
        /\ json.skip_space x = pm ++ rest
        /\ forall y m, String.length pm <= m ->
                       Decoder.scan_members m (pm ++ y) = Some (tms, y)
  | _ => Decoder.Decode body req = (req, Decoder.kind_error v)
  end.
Proof.
  intros Hp. unfold Decoder.Decode.
  destruct (json.skip_space body) as [| c s'] eqn:Hbody; [discriminate |].
  generalize Hp. intros Hp'. simpl in Hp'.
  destruct (c =? "[")%char eqn:Hc1.
  { assert (Hc : (c =? "{")%char = false)
      by (apply Ascii.eqb_eq in Hc1; subst c; reflexivity).
    rewrite Hc, Hp.
    destruct (json.skip_space s') as [| c1 r1]; [discriminate |].
    destruct (c1 =? "]")%char; [injection Hp' as <- _; reflexivity |].
    destruct (json.parse_elements _ _ _) as [[vs r] |]; [| discriminate].
    injection Hp' as <- _. reflexivity. }
  destruct (c =? "{")%char eqn:Hc2.
  { apply Ascii.eqb_eq in Hc2. subst c.
    destruct (json.skip_space s') as [| c1 r1] eqn:Hs'; [discriminate |].
    destruct (c1 =? "}")%char eqn:Hc3.
    { injection Hp' as <- _. apply Ascii.eqb_eq in Hc3. subst c1. eauto. }
    destruct (json.parse_members _ _ _) as [[ms r] |] eqn:Hms; [| discriminate].
    injection Hp' as <- <-.
    pose proof (parse_members_nonempty _ _ _ _ _ Hms) as Hne.
    destruct (scan_members_complete _ _ _ _ Hms) as (tms & Hscan & Hmap).
    destruct (scan_members_sound _ _ _ _ Hscan) as (_ & Htexts & pm & Heq & Hloc).
    destruct ms as [| m ms]; [congruence |].
    exists tms, pm, s'. rewrite Hscan, Hs'. auto 7. }
  rewrite Hp.
  destruct (c =? json.dquote)%char.
  { destruct (json.scan_string s') as [[b r] |]; [| discriminate].
    injection Hp' as <- _. reflexivity. }
  destruct (c =? "n")%char.
  { destruct (json.strip_prefix "ull" s'); [| discriminate].
    injection Hp' as <- _. reflexivity. }
  destruct (c =? "t")%char.
  { destruct (json.strip_prefix "rue" s'); [| discriminate].
    injection Hp' as <- _. reflexivity. }
  destruct (c =? "f")%char.
  { destruct (json.strip_prefix "alse" s'); [| discriminate].
    injection Hp' as <- _. reflexivity. }
  destruct (json.scan_number (String c s')) as [[lit r] |]; [| discriminate].
  injection Hp' as <- _. reflexivity.
Qed.

End FirstValue.

(** *** The scanner's verdict and the descent *)

Lemma string_outcome_agrees (s : string) :
  agree (json.scan_string s) (Decoder.string_outcome s).
Proof.
  remember (String.length s) as n eqn:Hn.
  assert (Hle : String.length s <= n) by lia. clear Hn.
  revert s Hle. induction n as [| n IH]; intros s Hle.
  - destruct s; [simpl; auto | simpl in Hle; lia].
  - destruct s as [| c s1]; [simpl; auto |]. simpl in Hle. simpl.
    destruct (c =? json.dquote)%char; [reflexivity |].
    destruct (c =? json.backslash)%char.
    { destruct s1 as [| e s2]; [simpl; auto |]. simpl in Hle.
      destruct (json.is_escape e).
      { specialize (IH s2 ltac:(lia)).
        destruct (json.scan_string s2) as [[b r] |]; exact IH. }
      destruct (e =? "u")%char; [| simpl; auto].
      destruct s2 as [| h1 [| h2 [| h3 [| h4 s3]]]]; simpl; auto;
        destruct (json.is_hex h1); simpl; auto;
        destruct (json.is_hex h2); simpl; auto;
        destruct (json.is_hex h3); simpl; auto;
        destruct (json.is_hex h4); simpl; auto.
      simpl in Hle. specialize (IH s3 ltac:(lia)).
      destruct (json.scan_string s3) as [[b r] |]; exact IH. }
    destruct (nat_of_ascii c <? 32)%nat; [simpl; auto |].
    specialize (IH s1 ltac:(lia)).
    destruct (json.scan_string s1) as [[b r] |]; exact IH.
Qed.

Lemma prefix_outcome_agrees (p s : string) :
  match json.strip_prefix p s with
  | Some rest => Decoder.prefix_outcome p s = Decoder.Done rest
  | None => Decoder.prefix_outcome p s = Decoder.Invalid
            \/ Decoder.prefix_outcome p s = Decoder.Truncated
  end.
Proof.
  revert s. induction p as [| a p IH]; intros s; simpl; [reflexivity |].
  destruct s as [| b s']; [auto |].
  destruct (a =? b)%char; [apply IH | auto].
Qed.

Lemma digits_outcome_agrees (s : string) :
  agree (json.scan_digits1 s) (Decoder.digits_outcome s).
Proof.
  unfold json.scan_digits1, Decoder.digits_outcome.
  destruct s as [| c s']; [simpl; auto |]. simpl.
  destruct (json.is_digit c); [| simpl; auto].
  destruct (json.span_digits s') as [ds rest]. reflexivity.
Qed.

Lemma magnitude_outcome_agrees (s : string) :
  agree (json.scan_magnitude s) (Decoder.magnitude_outcome s).
Proof.
  unfold json.scan_magnitude, Decoder.magnitude_outcome.
  destruct s as [| c s']; [simpl; auto |].
  destruct (c =? "0")%char; [reflexivity | apply digits_outcome_agrees].
Qed.

Lemma number_outcome_agrees (s : string) :
  agree (json.scan_number s) (Decoder.number_outcome s).
Proof.
  unfold json.scan_number, Decoder.number_outcome, json.scan_int.
  assert (Hint : agree
            match s with
            | String c s' =>
                if (c =? "-")%char
                then match json.scan_magnitude s' with
                     | Some (ds, rest) => Some (String c ds, rest)
                     | None => None
                     end
                else json.scan_magnitude s
            | EmptyString => None
            end
            match s with
            | EmptyString => Decoder.Truncated
            | String c s' =>
                if (c =? "-")%char then Decoder.magnitude_outcome s'
                else Decoder.magnitude_outcome s
            end).
  { destruct s as [| c s']; [simpl; auto |].
    destruct (c =? "-")%char; [| apply magnitude_outcome_agrees].
    pose proof (magnitude_outcome_agrees s') as Hm.
    destruct (json.scan_magnitude s') as [[ds r] |]; exact Hm. }
  destruct (match s with String _ _ => _ | EmptyString => None end) as [[i r1] |];
    simpl in Hint; [rewrite Hint | destruct Hint as [-> | ->]; simpl; auto].
  simpl.
  assert (Hfrac : agree (json.scan_frac r1)
            match r1 with
            | String c r' => if (c =? ".")%char then Decoder.digits_outcome r'
                             else Decoder.Done r1
            | EmptyString => Decoder.Done r1
            end).
  { unfold json.scan_frac. destruct r1 as [| c r']; [reflexivity |].
    destruct (c =? ".")%char; [| reflexivity].
    pose proof (digits_outcome_agrees r') as Hd.
    destruct (json.scan_digits1 r') as [[ds r] |]; exact Hd. }
  destruct (json.scan_frac r1) as [[f r2] |];
    simpl in Hfrac; [rewrite Hfrac | destruct Hfrac as [-> | ->]; simpl; auto].
  simpl. unfold json.scan_exp.
  destruct r2 as [| e r']; [reflexivity |].
  destruct ((e =? "e")%char || (e =? "E")%char); [| reflexivity].
  destruct r' as [| c r'']; [simpl; auto |].
  destruct ((c =? "+")%char || (c =? "-")%char).
  - pose proof (digits_outcome_agrees r'') as Hd.
    destruct (json.scan_digits1 r'') as [[ds r] |]; exact Hd.
  - pose proof (digits_outcome_agrees (String c r'')) as Hd.
    destruct (json.scan_digits1 (String c r'')) as [[ds r] |]; exact Hd.
Qed.

Section Verdict.
#[local] Arguments json.strip_prefix : simpl never.
#[local] Arguments json.scan_string : simpl never.
#[local] Arguments json.scan_number : simpl never.
#[local] Arguments json.skip_space : simpl never.
#[local] Arguments Decoder.string_outcome : simpl never.
#[local] Arguments Decoder.number_outcome : simpl never.
#[local] Arguments Decoder.prefix_outcome : simpl never.

Variable n : nat.
Hypothesis IHv :
  forall d s, agree (json.parse_value n d s) (Decoder.value_outcome n d s).
Hypothesis IHe :
  forall d s, agree (json.parse_elements n d s) (Decoder.elements_outcome n d s).
Hypothesis IHm :
  forall d s, agree (json.parse_members n d s) (Decoder.members_outcome n d s).

Lemma value_outcome_step :
  forall d s, agree (json.parse_value (S n) d s) (Decoder.value_outcome (S n) d s).
Proof.
  intros d s. simpl. destruct s as [| c s']; [simpl; auto |].
  destruct (c =? "[")%char.
  { destruct (json.maxNestingDepth <? d + 1)%N; [simpl; auto |].
    destruct (json.skip_space s') as [| c1 r1]; [simpl; auto |].
    destruct (c1 =? "]")%char; [reflexivity |].
    specialize (IHe (d + 1)%N (String c1 r1)).
    destruct (json.parse_elements n (d + 1) (String c1 r1)) as [[vs r] |]; exact IHe. }
  destruct (c =? "{")%char.
  { destruct (json.maxNestingDepth <? d + 1)%N; [simpl; auto |].
    destruct (json.skip_space s') as [| c1 r1]; [simpl; auto |].
    destruct (c1 =? "}")%char; [reflexivity |].
    specialize (IHm (d + 1)%N (String c1 r1)).
    destruct (json.parse_members n (d + 1) (String c1 r1)) as [[ms r] |]; exact IHm. }
  destruct (c =? json.dquote)%char.
  { pose proof (string_outcome_agrees s') as Hs.
    destruct (json.scan_string s') as [[b r] |]; exact Hs. }
  destruct (c =? "n")%char.
  { pose proof (prefix_outcome_agrees "ull" s') as Hs.
    destruct (json.strip_prefix "ull" s'); exact Hs. }
  destruct (c =? "t")%char.
  { pose proof (prefix_outcome_agrees "rue" s') as Hs.
    destruct (json.strip_prefix "rue" s'); exact Hs. }
  destruct (c =? "f")%char.
  { pose proof (prefix_outcome_agrees "alse" s') as Hs.
    destruct (json.strip_prefix "alse" s'); exact Hs. }
  pose proof (number_outcome_agrees (String c s')) as Hs.
  destruct (json.scan_number (String c s')) as [[lit r] |]; exact Hs.
Qed.

Lemma elements_outcome_step :
  forall d s, agree (json.parse_elements (S n) d s) (Decoder.elements_outcome (S n) d s).
Proof.
  intros d s. simpl. specialize (IHv d s).
  destruct (json.parse_value n d s) as [[v r] |]; simpl in IHv;
    [rewrite IHv | destruct IHv as [-> | ->]; simpl; auto].
  simpl. destruct (json.skip_space r) as [| c r']; [simpl; auto |].
  destruct (c =? ",")%char.
  - specialize (IHe d (json.skip_space r')).
    destruct (json.parse_elements n d (json.skip_space r')) as [[vs rest] |]; exact IHe.
  - destruct (c =? "]")%char; [reflexivity | simpl; auto].
Qed.

Lemma members_outcome_step :
  forall d s, agree (json.parse_members (S n) d s) (Decoder.members_outcome (S n) d s).
Proof.
  intros d s. simpl. destruct s as [| q s']; [simpl; auto |].
  destruct (q =? json.dquote)%char; [| simpl; auto].
  pose proof (string_outcome_agrees s') as Hkey.
  destruct (json.scan_string s') as [[key r] |]; simpl in Hkey;
    [rewrite Hkey | destruct Hkey as [-> | ->]; simpl; auto].
  simpl. destruct (json.skip_space r) as [| colon r1]; [simpl; auto |].
  destruct (colon =? ":")%char; [| simpl; auto].
  specialize (IHv d (json.skip_space r1)).
  destruct (json.parse_value n d (json.skip_space r1)) as [[v r2] |]; simpl in IHv;
    [rewrite IHv | destruct IHv as [-> | ->]; simpl; auto].
  simpl. destruct (json.skip_space r2) as [| c r3]; [simpl; auto |].
  destruct (c =? ",")%char.
  - specialize (IHm d (json.skip_space r3)).
    destruct (json.parse_members n d (json.skip_space r3)) as [[ms rest] |]; exact IHm.
  - destruct (c =? "}")%char; [reflexivity | simpl; auto].
Qed.

End Verdict.

Lemma outcome_agrees (n : nat) :
  (forall d s, agree (json.parse_value n d s) (Decoder.value_outcome n d s))
  /\ (forall d s, agree (json.parse_elements n d s) (Decoder.elements_outcome n d s))
  /\ (forall d s, agree (json.parse_members n d s) (Decoder.members_outcome n d s)).
Proof.
  induction n as [| n (IHv & IHe & IHm)].
  - split; [| split]; intros d s; simpl; auto.
  - split; [| split].
    + apply value_outcome_step; assumption.
    + apply elements_outcome_step; assumption.
    + apply members_outcome_step; assumption.
Qed.

(** Where the scanner reaches the end of a value, the descent returns
    one, and the value is not empty. *)
Lemma string_outcome_done (s r : string) :
  Decoder.string_outcome s = Decoder.Done r -> String.length r < String.length s.
Proof.
  intros Ho. pose proof (string_outcome_agrees s) as Ha.
  destruct (json.scan_string s) as [[b rest] |] eqn:Hs; simpl in Ha.
  - rewrite Ho in Ha. injection Ha as ->. exact (scan_string_length _ _ _ Hs).
  - rewrite Ho in Ha. destruct Ha; discriminate.
Qed.

Lemma value_outcome_done (n : nat) (d : N) (s r : string) :
  Decoder.value_outcome n d s = Decoder.Done r ->
  exists v, json.parse_value n d s = Some (v, r).
Proof.
  intros Ho. pose proof (proj1 (outcome_agrees n) d s) as Ha.
  destruct (json.parse_value n d s) as [[v rest] |]; simpl in Ha.
  - rewrite Ho in Ha. injection Ha as ->. eauto.
  - rewrite Ho in Ha. destruct Ha; discriminate.
Qed.

Lemma value_outcome_shorter (n : nat) (d : N) (s r : string) :
  Decoder.value_outcome n d s = Decoder.Done r -> String.length r < String.length s.
Proof.
  intros Ho. destruct (value_outcome_done _ _ _ _ Ho) as [v Hp].
  exact (proj1 (proj1 (enough_fuel n) _ _ _ _ Hp)).
Qed.

(** *** The scanner's verdict does not depend on the fuel *)

Section VerdictFuel.
#[local] Arguments json.skip_space : simpl never.
#[local] Arguments Decoder.string_outcome : simpl never.
#[local] Arguments Decoder.number_outcome : simpl never.
#[local] Arguments Decoder.prefix_outcome : simpl never.

Variables n m : nat.
Hypothesis IHv :
  forall d s, 2 * String.length s < n -> 2 * String.length s < m ->
              Decoder.value_outcome n d s = Decoder.value_outcome m d s.
Hypothesis IHe :
  forall d s, 2 * String.length s + 1 < n -> 2 * String.length s + 1 < m ->
              Decoder.elements_outcome n d s = Decoder.elements_outcome m d s.
Hypothesis IHm :
  forall d s, 2 * String.length s + 1 < n -> 2 * String.length s + 1 < m ->
              Decoder.members_outcome n d s = Decoder.members_outcome m d s.

Lemma value_outcome_fuel_step :
  forall d s, 2 * String.length s < S n -> 2 * String.length s < S m ->
              Decoder.value_outcome (S n) d s = Decoder.value_outcome (S m) d s.
Proof.
  intros d s Hn Hm. simpl. destruct s as [| c s']; [reflexivity |].
  simpl in Hn, Hm. pose proof (skip_space_length s') as Hle.
  destruct (c =? "[")%char.
  { destruct (json.maxNestingDepth <? d + 1)%N; [reflexivity |].
    destruct (json.skip_space s') as [| c1 r1]; [reflexivity |].
    destruct (c1 =? "]")%char; [reflexivity |].
    simpl in Hle. apply IHe; simpl; lia. }
  destruct (c =? "{")%char; [| reflexivity].
  destruct (json.maxNestingDepth <? d + 1)%N; [reflexivity |].
  destruct (json.skip_space s') as [| c1 r1]; [reflexivity |].
  destruct (c1 =? "}")%char; [reflexivity |].
  simpl in Hle. apply IHm; simpl; lia.
Qed.

Lemma elements_outcome_fuel_step :
  forall d s, 2 * String.length s + 1 < S n -> 2 * String.length s + 1 < S m ->
              Decoder.elements_outcome (S n) d s = Decoder.elements_outcome (S m) d s.
Proof.
  intros d s Hn Hm. simpl. rewrite (IHv d s) by lia.
  destruct (Decoder.value_outcome m d s) as [r | |] eqn:Hv; simpl; try reflexivity.
  apply value_outcome_shorter in Hv.
  pose proof (skip_space_length r) as Hle.
  destruct (json.skip_space r) as [| c r']; [reflexivity |].
  destruct (c =? ",")%char; [| reflexivity].
  pose proof (skip_space_length r') as Hle'. simpl in Hle.
  apply IHe; lia.
Qed.

Lemma members_outcome_fuel_step :
  forall d s, 2 * String.length s + 1 < S n -> 2 * String.length s + 1 < S m ->
              Decoder.members_outcome (S n) d s = Decoder.members_outcome (S m) d s.
Proof.
  intros d s Hn Hm. simpl. destruct s as [| q s']; [reflexivity |].
  simpl in Hn, Hm.
  destruct (q =? json.dquote)%char; [| reflexivity].
  destruct (Decoder.string_outcome s') as [r | |] eqn:Hkey; simpl; try reflexivity.
  apply string_outcome_done in Hkey.
  pose proof (skip_space_length r) as Hle.
  destruct (json.skip_space r) as [| colon r1]; [reflexivity |].
  destruct (colon =? ":")%char; [| reflexivity].
  pose proof (skip_space_length r1) as Hle1. simpl in Hle.
  rewrite (IHv d (json.skip_space r1)) by lia.
  destruct (Decoder.value_outcome m d (json.skip_space r1)) as [r2 | |] eqn:Hv;
    simpl; try reflexivity.
  apply value_outcome_shorter in Hv.
  pose proof (skip_space_length r2) as Hle2.
  destruct (json.skip_space r2) as [| c r3]; [reflexivity |].
  destruct (c =? ",")%char; [| reflexivity].
  pose proof (skip_space_length r3) as Hle3. simpl in Hle2.
  apply IHm; lia.
Qed.

End VerdictFuel.

Lemma outcome_fuel (n : nat) :
  forall m,
    (forall d s, 2 * String.length s < n -> 2 * String.length s < m ->
                 Decoder.value_outcome n d s = Decoder.value_outcome m d s)
    /\ (forall d s, 2 * String.length s + 1 < n -> 2 * String.length s + 1 < m ->
                    Decoder.elements_outcome n d s = Decoder.elements_outcome m d s)
    /\ (forall d s, 2 * String.length s + 1 < n -> 2 * String.length s + 1 < m ->
                    Decoder.members_outcome n d s = Decoder.members_outcome m d s).
Proof.
  induction n as [| n IH]; intros m.
  - split; [| split]; intros d s Hn; lia.
  - destruct m as [| m]; [split; [| split]; intros d s _ Hm; lia |].
    destruct (IH m) as (IHv & IHe & IHm).
    split; [| split].
    + apply value_outcome_fuel_step; assumption.
    + apply elements_outcome_fuel_step; assumption.
    + apply members_outcome_fuel_step; assumption.
Qed.

(** With more fuel than twice the length of the text, the scanner returns
    its verdict. *)
Lemma verdict_fuel (n : nat) (s : string) :
  2 * String.length s < n -> Decoder.value_outcome n 0 s = Decoder.verdict s.
Proof.
  intros Hn. unfold Decoder.verdict.
  apply (proj1 (outcome_fuel n (S (2 * String.length s)))); lia.
Qed.

(** The descent, with the fuel [parse] and [Decode] give it, returns a
    value exactly where the verdict is [Done]. *)
Lemma verdict_agrees (n : nat) (s : string) :
  String.length s <= n -> agree (json.parse_value (S n) 0 s) (Decoder.verdict s).
Proof.
  intros Hn. unfold Decoder.verdict.
  pose proof (proj1 (outcome_agrees (S (2 * String.length s))) 0%N s) as Ha.
  destruct (json.parse_value (S n) 0 s) as [[v rest] |] eqn:Hp.
  - destruct (proj1 (enough_fuel _) _ _ _ _ Hp) as [Hlen Hfuel].
    rewrite (Hfuel (S (2 * String.length s))) in Ha by lia. exact Ha.
  - destruct (json.parse_value (S (2 * String.length s)) 0 s) as [[v rest] |] eqn:Hq;
      [| exact Ha].
    destruct (proj1 (enough_fuel _) _ _ _ _ Hq) as [Hlen Hfuel].
    rewrite (Hfuel (S n)) in Hp by lia. discriminate Hp.
Qed.

(** *** What the decoder stores *)

Lemma store_raw_decoded (v : json.value) (text : json.RawMessage) :
  json.parse text = Some v -> decoded_raw (Decoder.store_raw v text).
Proof.
  intros Htext. destruct v; simpl; try exact I; eexists; split;
    try exact Htext; discriminate.
Qed.

Lemma store_member_decoded (st : serverRequest * option error)
    (m : string * json.value * json.RawMessage) :
  json.parse (snd m) = Some (snd (fst m)) ->
  decoded_raw (req_Params (fst st)) /\ decoded_raw (req_Id (fst st)) ->
  decoded_raw (req_Params (fst (Decoder.store_member st m)))
  /\ decoded_raw (req_Id (fst (Decoder.store_member st m))).
Proof.
  destruct st as [req saved], m as [[key v] text]. simpl. intros Htext [Hp Hi].
  unfold Decoder.store_member.
  destruct (Decoder.field_of_key (Decoder.unquote key)) as [[] |]; simpl;
    try (destruct (Decoder.store_string v _)); simpl;
    auto using store_raw_decoded.
Qed.

Lemma fold_store_member_decoded (tms : list (string * json.value * json.RawMessage))
    (st : serverRequest * option error) :
  Forall (fun m => json.parse (snd m) = Some (snd (fst m))) tms ->
  decoded_raw (req_Params (fst st)) /\ decoded_raw (req_Id (fst st)) ->
  decoded_raw (req_Params (fst (fold_left Decoder.store_member tms st)))
  /\ decoded_raw (req_Id (fst (fold_left Decoder.store_member tms st))).
Proof.
  intros Htexts. revert st.
  induction Htexts as [| m tms Hm _ IH]; intros st Hst; [exact Hst |].
  simpl. apply IH. apply store_member_decoded; assumption.
Qed.

(** [Decode] stores nothing unless the body starts with a value it can
    scan to its end; then what it stores in [data] and [tid] is the text
    of a JSON value. *)
Lemma Decode_cases (body : string) (req : serverRequest) :
  (exists e, Decoder.Decode body req = (req, e))
  \/ exists tms,
       Forall (fun m => json.parse (snd m) = Some (snd (fst m))) tms
       /\ Decoder.Decode body req = fold_left Decoder.store_member tms (req, None).
Proof.
  unfold Decoder.Decode.
  destruct (json.skip_space body) as [| c s']; [eauto |].
  destruct (c =? "{")%char.
  - destruct (json.skip_space s') as [| c1 r1]; [eauto |].
    destruct (c1 =? "}")%char; [eauto |].
    destruct (Decoder.scan_members _ _) as [[tms rest] |] eqn:Hscan; [| eauto].
    right. exists tms. split; [| reflexivity].
    exact (proj1 (proj2 (scan_members_sound _ _ _ _ Hscan))).
  - destruct (json.parse_value _ _ _) as [[v rest] |]; eauto.
Qed.

Lemma newCodecRequest_decoded (r : Request) :
  decoded_raw (req_Params (request (snd (newCodecRequest r))))
  /\ decoded_raw (req_Id (request (snd (newCodecRequest r)))).
Proof.
  unfold newCodecRequest. destruct (closed r); [simpl; auto |].
  destruct (Decode_cases (sent r) new_serverRequest) as [[e ->] | (tms & Htexts & ->)].
  - simpl. auto.
  - pose proof (fold_store_member_decoded tms (new_serverRequest, None) Htexts
                  (conj I I)) as Hfold.
    destruct (fold_left _ _ _) as [req e]. exact Hfold.
Qed.


Lemma parse_first_value (body : string) (v : json.value) :
  json.parse body = Some v ->
  exists rest,
    json.parse_value (S (String.length body)) 0 (json.skip_space body) = Some (v, rest)
    /\ json.skip_space rest = "".
Proof.
  unfold json.parse.
  destruct (json.parse_value _ _ _) as [[v' rest] |]; [| discriminate].
  destruct (json.skip_space rest) eqn:Hrest; [| discriminate].
  intros [= <-]. eauto.
Qed.

Lemma store_member_keeps_no_data (st : serverRequest * option error)
    (m : string * json.value * json.RawMessage) :
  (Decoder.field_of_key (Decoder.unquote (fst (fst m))) = Some Decoder.Params_ ->
   snd (fst m) = json.Null) ->
  req_Params (fst st) = None ->
  req_Params (fst (Decoder.store_member st m)) = None.
Proof.
  destruct st as [req saved], m as [[key v] text]. simpl. intros Hnull Hp.
  unfold Decoder.store_member.
  destruct (Decoder.field_of_key (Decoder.unquote key)) as [[] |]; simpl;
    try (destruct (Decoder.store_string v _)); simpl; try exact Hp.
  rewrite (Hnull eq_refl). reflexivity.
Qed.

Lemma fold_store_member_keeps_no_data
    (tms : list (string * json.value * json.RawMessage))
    (st : serverRequest * option error) :
  (forall key v, In (key, v) (map fst tms) ->
                 Decoder.field_of_key (Decoder.unquote key) = Some Decoder.Params_ ->
                 v = json.Null) ->
  req_Params (fst st) = None ->
  req_Params (fst (fold_left Decoder.store_member tms st)) = None.
Proof.
  revert st. induction tms as [| m tms IH]; intros st Hnull Hp; [exact Hp |].
  simpl. apply IH.
  - intros key v Hin. apply Hnull. right. exact Hin.
  - apply store_member_keeps_no_data; [| exact Hp].
    destruct m as [[key v] text]. apply Hnull. left. reflexivity.
Qed.

Lemma store_member_error (st : serverRequest * option error)
    (m : string * json.value * json.RawMessage) :
  (snd st = None \/ exists what, snd st = Some (UnmarshalTypeError what)) ->
  snd (Decoder.store_member st m) = None
  \/ exists what, snd (Decoder.store_member st m) = Some (UnmarshalTypeError what).
Proof.
  destruct st as [req saved], m as [[key v] text]. simpl. intros Hsaved.
  unfold Decoder.store_member.
  destruct (Decoder.field_of_key (Decoder.unquote key)) as [[] |]; simpl;
    try exact Hsaved;
    destruct v; simpl;
    destruct Hsaved as [-> | [what ->]]; simpl; eauto.
Qed.

Lemma fold_store_member_error
    (tms : list (string * json.value * json.RawMessage))
    (st : serverRequest * option error) :
  (snd st = None \/ exists what, snd st = Some (UnmarshalTypeError what)) ->
  snd (fold_left Decoder.store_member tms st) = None
  \/ exists what, snd (fold_left Decoder.store_member tms st)
                  = Some (UnmarshalTypeError what).
Proof.
  revert st. induction tms as [| m tms IH]; intros st Hst; [exact Hst |].
  simpl. apply IH. apply store_member_error. exact Hst.
Qed.

Lemma fold_store_member_kind (tms : list (string * json.value * json.RawMessage))
    (req : serverRequest) :
  snd (fold_left Decoder.store_member tms (req, None)) = None
  \/ exists what, snd (fold_left Decoder.store_member tms (req, None))
                  = Some (UnmarshalTypeError what).
Proof. apply fold_store_member_error. left. reflexivity. Qed.

Lemma kind_error_kind (v : json.value) :
  Decoder.kind_error v = None
  \/ exists what, Decoder.kind_error v = Some (UnmarshalTypeError what).
Proof. destruct v; simpl; eauto. Qed.

Lemma store_member_no_error (st : serverRequest * option error)
    (m : string * json.value * json.RawMessage) :
  snd (Decoder.store_member st m) = None <-> snd st = None /\ member_fits (fst m).
Proof.
  destruct st as [req saved], m as [[key v] text]. unfold member_fits. simpl.
  unfold Decoder.store_member.
  destruct (Decoder.field_of_key (Decoder.unquote key)) as [[] |]; simpl;
    try tauto;
    destruct v; simpl; destruct saved; simpl; split;
    try tauto; try (intros [? ?]; congruence); try discriminate.
Qed.

Lemma fold_store_member_no_error
    (tms : list (string * json.value * json.RawMessage))
    (st : serverRequest * option error) :
  snd (fold_left Decoder.store_member tms st) = None
  <-> snd st = None /\ Forall member_fits (map fst tms).
Proof.
  revert st. induction tms as [| m tms IH]; intros st; simpl.
  - split; [intros Hst; split; [exact Hst | constructor] | tauto].
  - rewrite IH, store_member_no_error. split.
    + intros [[Hst Hm] Htms]. split; [exact Hst | constructor; assumption].
    + intros [Hst Hall]. inversion Hall; subst. tauto.
Qed.

(** *** The scanner's verdict and the error of [Decode] *)

Section ScannerVerdict.
#[local] Arguments json.skip_space : simpl never.
#[local] Arguments Decoder.scan_members : simpl never.
#[local] Arguments json.parse_members : simpl never.
#[local] Arguments Decoder.verdict : simpl never.

Lemma Decode_verdict (body : string) (req : serverRequest) :
  match Decoder.verdict (json.skip_space body) with
  | Decoder.Done _ =>
      snd (Decoder.Decode body req) = None
      \/ exists what, snd (Decoder.Decode body req) = Some (UnmarshalTypeError what)
  | Decoder.Invalid => Decoder.Decode body req = (req, Some SyntaxError)
  | Decoder.Truncated =>
      Decoder.Decode body req
      = (req, Some match json.skip_space body with
                   | EmptyString => io.EOF
                   | String _ _ => io.ErrUnexpectedEOF
                   end)
  end.
Proof.
  unfold Decoder.Decode, Decoder.scan_error.
  pose proof (verdict_agrees (String.length body) (json.skip_space body)
                (skip_space_length body)) as Hv.
  destruct (json.skip_space body) as [| c s'] eqn:Hbody; [reflexivity |].
  destruct (c =? "{")%char eqn:Hc.
  - apply Ascii.eqb_eq in Hc. subst c. simpl in Hv.
    change (0 + 1)%N with 1%N in Hv.
    destruct (json.skip_space s') as [| c1 r1] eqn:Hs'.
    { unfold Decoder.verdict. simpl. rewrite Hs'. reflexivity. }
    destruct (c1 =? "}")%char.
    { simpl in Hv. rewrite Hv. left. reflexivity. }
    destruct (Decoder.scan_members _ _) as [[tms rest] |] eqn:Hscan.
    + apply scan_members_sound in Hscan. destruct Hscan as (Hparse & _).
      rewrite Hparse in Hv. simpl in Hv. rewrite Hv.
      apply fold_store_member_kind.
    + destruct (json.parse_members _ _ _) as [[ms rest] |] eqn:Hparse.
      { apply scan_members_complete in Hparse.
        destruct Hparse as (tms & Hsome & _). congruence. }
      simpl in Hv. destruct Hv as [-> | ->]; reflexivity.
  - destruct (json.parse_value _ _ _) as [[v rest] |]; simpl in Hv.
    + rewrite Hv. simpl. apply kind_error_kind.
    + destruct Hv as [-> | ->]; reflexivity.
Qed.

End ScannerVerdict.

(** *** Raw messages are bytes of the body *)

Lemma slice_after (a s m : string) :
  (exists pre post, s = pre ++ m ++ post) ->
  exists pre post, a ++ s = pre ++ m ++ post.
Proof.
  intros (pre & post & ->). exists (a ++ pre), post. rewrite append_assoc. reflexivity.
Qed.

Lemma slice_after_byte (c : ascii) (s m : string) :
  (exists pre post, s = pre ++ m ++ post) ->
  exists pre post, String c s = pre ++ m ++ post.
Proof.
  intros (pre & post & ->). exists (String c pre), post. rewrite append_cons. reflexivity.
Qed.

Lemma slice_after_space (s m : string) :
  (exists pre post, json.skip_space s = pre ++ m ++ post) ->
  exists pre post, s = pre ++ m ++ post.
Proof.
  intros Hs. destruct (skip_space_split s) as (ws & Heq & _).
  rewrite Heq. apply slice_after. exact Hs.
Qed.

Lemma scan_members_slices (n : nat) :
  forall s tms rest,
    Decoder.scan_members n s = Some (tms, rest) ->
    Forall (fun m => exists pre post, s = pre ++ snd m ++ post) tms.
Proof.
  induction n as [| n IH]; intros s tms rest Hp; [discriminate |].
  simpl in Hp.
  destruct s as [| q s']; [discriminate |].
  destruct (q =? json.dquote)%char; [| discriminate].
  destruct (json.scan_string s') as [[key r] |] eqn:Hkey; [| discriminate].
  destruct (scan_string_local _ _ _ Hkey) as (pk & -> & _).
  destruct (json.skip_space r) as [| colon r1] eqn:Hr; [discriminate |].
  destruct (colon =? ":")%char; [| discriminate].
  destruct (json.parse_value n 1 (json.skip_space r1)) as [[v r2] |] eqn:Hv; [| discriminate].
  destruct (proj1 (descent_local n) _ _ _ _ Hv) as (p & Hp1 & _).
  assert (Hvalue : exists pre post,
             String q (pk ++ r)
             = pre ++ Decoder.text_before (json.skip_space r1) r2 ++ post).
  { apply slice_after_byte, slice_after, slice_after_space. rewrite Hr.
    apply slice_after_byte, slice_after_space. rewrite Hp1, text_before_append.
    exists "", r2. reflexivity. }
  assert (Htail : forall m, (exists pre post, json.skip_space r2 = pre ++ m ++ post) ->
                            exists pre post, String q (pk ++ r) = pre ++ m ++ post).
  { intros m Hm. apply slice_after_byte, slice_after, slice_after_space. rewrite Hr.
    apply slice_after_byte, slice_after_space. rewrite Hp1.
    apply slice_after, slice_after_space. exact Hm. }
  destruct (json.skip_space r2) as [| c r3] eqn:Hr2; [discriminate |].
  destruct (c =? ",")%char.
  - destruct (Decoder.scan_members n (json.skip_space r3)) as [[ms rest'] |] eqn:Hms;
      [| discriminate].
    injection Hp as <- <-. constructor; [exact Hvalue |].
    apply IH in Hms. rewrite Forall_forall in Hms. apply Forall_forall.
    intros m Hin. apply Htail, slice_after_byte, slice_after_space.
    exact (Hms m Hin).
  - destruct (c =? "}")%char; [| discriminate].
    injection Hp as <- <-. constructor; [exact Hvalue | constructor].
Qed.

Lemma store_member_raw_from (st : serverRequest * option error)
    (m : string * json.value * json.RawMessage) (x : json.RawMessage) :
  req_Params (fst (Decoder.store_member st m)) = Some x
  \/ req_Id (fst (Decoder.store_member st m)) = Some x ->
  (req_Params (fst st) = Some x \/ req_Id (fst st) = Some x) \/ snd m = x.
Proof.
  destruct st as [req saved], m as [[key v] text]. simpl.
  unfold Decoder.store_member.
  destruct (Decoder.field_of_key (Decoder.unquote key)) as [[] |]; simpl;
    try (destruct (Decoder.store_string v _)); simpl; try tauto;
    destruct v; simpl; intros [Hx | Hx]; try discriminate; try tauto;
    injection Hx as <-; tauto.
Qed.

Lemma fold_store_member_raw_from
    (tms : list (string * json.value * json.RawMessage))
    (st : serverRequest * option error) (x : json.RawMessage) :
  req_Params (fst (fold_left Decoder.store_member tms st)) = Some x
  \/ req_Id (fst (fold_left Decoder.store_member tms st)) = Some x ->
  (req_Params (fst st) = Some x \/ req_Id (fst st) = Some x)
  \/ Exists (fun m => snd m = x) tms.
Proof.
  revert st. induction tms as [| m tms IH]; intros st; simpl; [tauto |].
  intros Hx. destruct (IH _ Hx) as [Hst | Hin].
  - destruct (store_member_raw_from _ _ _ Hst) as [Hst' | Hm]; [tauto |].
    right. constructor 1. exact Hm.
  - right. constructor 2. exact Hin.
Qed.

(* ================================================================== *)
(** ** Construction *)
(* ================================================================== *)

Example NewRequest_calc_add :
  NewRequest NewCodec (incoming calc_add_body)
  = ({| sent := calc_add_body; closed := true |},
     calc_add (Some "[ 1, 2 ]") (Some "1")).
Proof. reflexivity. Qed.

Example NewRequest_ping :
  snd (NewRequest NewCodec (incoming ping_body))
  = {| request := {| req_Method := "Ping"; req_Params := None; req_Id := None;
                     req_Type := ""; req_Action := "Calc" |};
       err := None |}.
Proof. reflexivity. Qed.

Example NewRequest_truncated :
  snd (NewRequest NewCodec (incoming "[[[[[[[["))
  = {| request := new_serverRequest; err := Some io.ErrUnexpectedEOF |}.
Proof. reflexivity. Qed.

Example NewRequest_refused :
  snd (NewRequest NewCodec (incoming ("{" ++ quoted "tid" ++ ":1,}")))
  = {| request := new_serverRequest; err := Some SyntaxError |}.
Proof. reflexivity. Qed.

Example NewRequest_type_error :
  snd (NewRequest NewCodec
         (incoming ("{" ++ quoted "Action" ++ ":" ++ quoted "Calc" ++ ","
                    ++ quoted "method" ++ ":5," ++ quoted "TID" ++ ": [7] }")))
  = {| request := {| req_Method := ""; req_Params := None; req_Id := Some "[7]";
                     req_Type := ""; req_Action := "Calc" |};
       err := Some (UnmarshalTypeError "number") |}.
Proof. reflexivity. Qed.

(** X12. A request whose body is empty, or only space, gives a session
    that holds no request and the error [io.EOF]: [Method] returns the
    empty name with it, [ReadRequest] returns it and leaves the target
    alone, and [WriteResponse] returns it and writes nothing, whatever the
    reply and the dispatch error are. *)
Theorem NewRequest_blank_body {T R : Type}
    `{json.Unmarshaler T} `{json.Marshaler R}
    (codec : Codec) (body : string) (args : T) (w : http.ResponseWriter) (reply : R)
    (methodErr : option error) (c : CodecRequest) :
  json.skip_space body = "" ->
  c = snd (NewRequest codec (incoming body)) ->
  c = {| request := new_serverRequest; err := Some io.EOF |}
  /\ Method c = (c, "", Some io.EOF)
  /\ ReadRequest c args = (c, args, Some io.EOF)
  /\ WriteResponse c w reply methodErr = (c, w, Some io.EOF).
Proof.
  intros Hblank ->. unfold NewRequest, newCodecRequest, incoming, Decoder.Decode. simpl.
  rewrite Hblank. simpl. auto.
Qed.

Lemma NewRequest_blank_body_witness :
  json.skip_space " " = ""
  /\ snd (NewRequest NewCodec (incoming " "))
     = {| request := new_serverRequest; err := Some io.EOF |}
  /\ WriteResponse (snd (NewRequest NewCodec (incoming " "))) fresh_writer 3%Z None
     = (snd (NewRequest NewCodec (incoming " ")), fresh_writer, Some io.EOF).
Proof.
  split; [reflexivity |].
  pose proof (NewRequest_blank_body (T := Z) NewCodec " " 0%Z fresh_writer 3%Z None
                (snd (NewRequest NewCodec (incoming " "))) eq_refl eq_refl) as Hblank.
  exact (conj (proj1 Hblank) (proj2 (proj2 (proj2 Hblank)))).
Defined.

(** X13. The error a session starts with follows the scanner's verdict on
    the first value of the body.  Where the scanner refuses a byte, the
    session holds no request and a syntax error; where the body ends
    before the value does, it holds no request and [io.EOF] for a blank
    body, [io.ErrUnexpectedEOF] otherwise; where the scanner reaches the
    end of the value, the error is nil or a type error. *)
Theorem newCodecRequest_scanner_verdict (body : string) :
  let c := snd (newCodecRequest (incoming body)) in
  match Decoder.verdict (json.skip_space body) with
  | Decoder.Done _ =>
      err c = None \/ exists what, err c = Some (UnmarshalTypeError what)
  | Decoder.Invalid =>
      c = {| request := new_serverRequest; err := Some SyntaxError |}
  | Decoder.Truncated =>
      c = {| request := new_serverRequest;
             err := Some match json.skip_space body with
                         | EmptyString => io.EOF
                         | String _ _ => io.ErrUnexpectedEOF
                         end |}
  end.
Proof.
  pose proof (Decode_verdict body new_serverRequest) as Hd.
  set (o := Decoder.verdict _) in *.
  unfold newCodecRequest, incoming. cbn [closed sent].
  destruct (Decoder.Decode body new_serverRequest) as [req e].
  destruct o; cbn [snd request err] in *.
  - exact Hd.
  - injection Hd as -> ->. reflexivity.
  - injection Hd as -> ->. reflexivity.
Qed.

(** X14. Only a type error leaves something of the body in the session:
    when [newCodecRequest] keeps an error that is not a type error, the
    request of the session is the empty one, with no field of the body in
    it. *)
Theorem newCodecRequest_scan_error (r r' : Request) (c : CodecRequest) (e : error) :
  newCodecRequest r = (r', c) ->
  err c = Some e ->
  (forall what, e <> UnmarshalTypeError what) ->
  request c = new_serverRequest.
Proof.
  unfold newCodecRequest. destruct (closed r).
  { intros [= _ <-] _ _. reflexivity. }
  destruct (Decode_cases (sent r) new_serverRequest) as [[e' ->] | (tms & _ & ->)].
  - intros [= _ <-] _ _. reflexivity.
  - pose proof (fold_store_member_error tms (new_serverRequest, None) (or_introl eq_refl))
      as Hfold.
    destruct (fold_left _ _ _) as [req e'']. simpl in Hfold.
    intros [= _ <-]. simpl. intros -> Hkind.
    destruct Hfold as [Hnone | [what Hwhat]]; [discriminate |].
    injection Hwhat as ->. exfalso. exact (Hkind what eq_refl).
Qed.

Lemma newCodecRequest_scan_error_witness :
  newCodecRequest (incoming ("{" ++ quoted "action" ++ ":" ++ quoted "Calc"))
  = ({| sent := "{" ++ quoted "action" ++ ":" ++ quoted "Calc"; closed := true |},
     {| request := new_serverRequest; err := Some io.ErrUnexpectedEOF |})
  /\ (forall what, io.ErrUnexpectedEOF <> UnmarshalTypeError what)
  /\ request {| request := new_serverRequest; err := Some io.ErrUnexpectedEOF |}
     = new_serverRequest.
Proof.
  assert (Hkind : forall what, io.ErrUnexpectedEOF <> UnmarshalTypeError what)
    by (intros what; discriminate).
  split; [reflexivity | split; [exact Hkind |]].
  exact (newCodecRequest_scan_error
           (incoming ("{" ++ quoted "action" ++ ":" ++ quoted "Calc")) _ _
           io.ErrUnexpectedEOF eq_refl eq_refl Hkind).
Defined.

(** X15. A body that is a JSON text but not an object with members gives
    a session that holds no request: without error for [null] and for the
    empty object, with the type error of its kind for a boolean, a number,
    a string and an array.  The body is closed. *)
Theorem newCodecRequest_not_an_object (body : string) (v : json.value) :
  json.parse body = Some v ->
  (forall m ms, v <> json.Object (m :: ms)) ->
  newCodecRequest (incoming body)
  = ({| sent := body; closed := true |},
     {| request := new_serverRequest;
        err := match v with
               | json.Null | json.Object _ => None
               | json.Bool _ => Some (UnmarshalTypeError "bool")
               | json.Number _ => Some (UnmarshalTypeError "number")
               | json.String _ => Some (UnmarshalTypeError "string")
               | json.Array _ => Some (UnmarshalTypeError "array")
               end |}).
Proof.
  intros Hparse Hv. destruct (parse_first_value _ _ Hparse) as (rest & Hfirst & _).
  pose proof (Decode_first_value body new_serverRequest v rest Hfirst) as Hdec.
  unfold newCodecRequest, incoming. simpl.
  destruct v as [| b | lit | raw | elems | [| m ms]]; try (rewrite Hdec; reflexivity).
  - rewrite (proj1 Hdec). reflexivity.
  - exfalso. exact (Hv m ms eq_refl).
Qed.

Lemma newCodecRequest_not_an_object_witness :
  json.parse "[ 1, 2 ]" = Some (json.Array [json.Number "1"; json.Number "2"])
  /\ (forall m ms, json.Array [json.Number "1"; json.Number "2"] <> json.Object (m :: ms))
  /\ newCodecRequest (incoming "[ 1, 2 ]")
     = ({| sent := "[ 1, 2 ]"; closed := true |},
        {| request := new_serverRequest; err := Some (UnmarshalTypeError "array") |}).
Proof.
  assert (Hv : forall m ms,
             json.Array [json.Number "1"; json.Number "2"] <> json.Object (m :: ms))
    by (intros m ms; discriminate).
  split; [reflexivity | split; [exact Hv |]].
  exact (newCodecRequest_not_an_object "[ 1, 2 ]"
           (json.Array [json.Number "1"; json.Number "2"]) eq_refl Hv).
Defined.

(** X16. The bodies [newCodecRequest] accepts, among the JSON texts: the
    session starts without error exactly when the body is [null], or an
    object in which every member that names [method], [type] or [action]
    holds a string or [null].  What [data] and [tid] hold, and members of
    other names, never make a body unacceptable. *)
Theorem newCodecRequest_accepts (body : string) (v : json.value) :
  json.parse body = Some v ->
  err (snd (newCodecRequest (incoming body))) = None
  <-> match v with
      | json.Null => True
      | json.Object ms => Forall member_fits ms
      | _ => False
      end.
Proof.
  intros Hparse. destruct (parse_first_value _ _ Hparse) as (rest & Hfirst & _).
  pose proof (Decode_first_value body new_serverRequest v rest Hfirst) as Hdec.
  unfold newCodecRequest, incoming. simpl.
  destruct v as [| b | lit | raw | elems | [| m ms]];
    try (rewrite Hdec; simpl; split; [discriminate | contradiction]).
  - rewrite Hdec. simpl. tauto.
  - rewrite (proj1 Hdec). simpl. split; [constructor | reflexivity].
  - destruct Hdec as (tms & pm & x & Hmap & _ & Hdec & _).
    rewrite Hdec, <- Hmap.
    pose proof (fold_store_member_no_error tms (new_serverRequest, None)) as Hfold.
    destruct (fold_left _ _ _) as [req e]. simpl in Hfold |- *.
    rewrite Hfold. tauto.
Qed.

Lemma newCodecRequest_accepts_witness :
  json.parse ("{" ++ quoted "method" ++ ":7}")
  = Some (json.Object [("method", json.Number "7")])
  /\ err (snd (newCodecRequest (incoming ("{" ++ quoted "method" ++ ":7}"))))
     = Some (UnmarshalTypeError "number")
  /\ (err (snd (newCodecRequest (incoming ("{" ++ quoted "method" ++ ":7}")))) = None
      <-> Forall member_fits [("method", json.Number "7")]).
Proof.
  split; [reflexivity | split; [reflexivity |]].
  exact (newCodecRequest_accepts ("{" ++ quoted "method" ++ ":7}")
           (json.Object [("method", json.Number "7")]) eq_refl).
Defined.

(** X17. What [newCodecRequest] leaves in [data] and in [tid] is nil or
    the text of a JSON value other than [null]: a [tid] never makes the
    response fail to marshal. *)
Theorem newCodecRequest_raw_messages (r r' : Request) (c : CodecRequest)
    (m : json.RawMessage) :
  newCodecRequest r = (r', c) ->
  req_Params (request c) = Some m \/ req_Id (request c) = Some m ->
  json.Valid m = true /\ json.parse m <> Some json.Null.
Proof.
  intros Hnew Hm. destruct (newCodecRequest_decoded r) as [Hp Hi].
  rewrite Hnew in Hp, Hi. simpl in Hp, Hi.
  assert (Hdec : decoded_raw (Some m)) by (destruct Hm as [<- | <-]; assumption).
  destruct Hdec as (v & Hv & Hnull). unfold json.Valid. rewrite Hv.
  split; [reflexivity | congruence].
Qed.

Lemma newCodecRequest_raw_messages_witness :
  newCodecRequest (incoming calc_add_body)
  = ({| sent := calc_add_body; closed := true |}, calc_add (Some "[ 1, 2 ]") (Some "1"))
  /\ (req_Params (request (calc_add (Some "[ 1, 2 ]") (Some "1"))) = Some "[ 1, 2 ]"
      \/ req_Id (request (calc_add (Some "[ 1, 2 ]") (Some "1"))) = Some "[ 1, 2 ]")
  /\ json.Valid "[ 1, 2 ]" = true
  /\ json.parse "[ 1, 2 ]" <> Some json.Null.
Proof.
  split; [reflexivity | split; [left; reflexivity |]].
  exact (newCodecRequest_raw_messages (incoming calc_add_body) _
           (calc_add (Some "[ 1, 2 ]") (Some "1")) "[ 1, 2 ]"
           eq_refl (or_introl eq_refl)).
Defined.

Section Slices.
#[local] Arguments Decoder.scan_members : simpl never.
#[local] Arguments json.parse_value : simpl never.
#[local] Arguments json.skip_space : simpl never.

(** X18. [data] and [tid] are kept as the client wrote them: whatever
    [newCodecRequest] leaves in either is a run of consecutive bytes of
    the body, not a rendering of the decoded value. *)
Theorem newCodecRequest_keeps_the_bytes (r r' : Request) (c : CodecRequest)
    (m : json.RawMessage) :
  newCodecRequest r = (r', c) ->
  req_Params (request c) = Some m \/ req_Id (request c) = Some m ->
  exists pre post, sent r = pre ++ m ++ post.
Proof.
  unfold newCodecRequest. destruct (closed r).
  { intros [= _ <-]. simpl. intros [? | ?]; discriminate. }
  unfold Decoder.Decode.
  destruct (json.skip_space (sent r)) as [| b s'] eqn:Hbody.
  { intros [= _ <-]. simpl. intros [? | ?]; discriminate. }
  destruct (b =? "{")%char.
  - destruct (json.skip_space s') as [| c1 r1] eqn:Hs'.
    { intros [= _ <-]. simpl. intros [? | ?]; discriminate. }
    destruct (c1 =? "}")%char.
    { intros [= _ <-]. simpl. intros [? | ?]; discriminate. }
    destruct (Decoder.scan_members _ _) as [[tms rest] |] eqn:Hscan.
    + apply scan_members_slices in Hscan.
      destruct (fold_left _ _ _) as [req e] eqn:Hfold.
      intros [= _ <-]. simpl. intros Hm.
      pose proof (fold_store_member_raw_from tms (new_serverRequest, None) m) as Hfrom.
      rewrite Hfold in Hfrom. destruct (Hfrom Hm) as [[? | ?] | Hin]; try discriminate.
      apply Exists_exists in Hin. destruct Hin as (member & Hin & <-).
      rewrite Forall_forall in Hscan. specialize (Hscan member Hin).
      apply slice_after_space. rewrite Hbody.
      apply slice_after_byte, slice_after_space. rewrite Hs'. exact Hscan.
    + intros [= _ <-]. simpl. intros [? | ?]; discriminate.
  - destruct (json.parse_value _ _ _) as [[v rest] |];
      intros [= _ <-]; simpl; intros [? | ?]; discriminate.
Qed.

End Slices.

Lemma newCodecRequest_keeps_the_bytes_witness :
  newCodecRequest (incoming calc_add_body)
  = ({| sent := calc_add_body; closed := true |}, calc_add (Some "[ 1, 2 ]") (Some "1"))
  /\ (req_Params (request (calc_add (Some "[ 1, 2 ]") (Some "1"))) = Some "1"
      \/ req_Id (request (calc_add (Some "[ 1, 2 ]") (Some "1"))) = Some "1")
  /\ exists pre post, sent (incoming calc_add_body) = pre ++ "1" ++ post.
Proof.
  split; [reflexivity | split; [right; reflexivity |]].
  exact (newCodecRequest_keeps_the_bytes (incoming calc_add_body) _
           (calc_add (Some "[ 1, 2 ]") (Some "1")) "1"
           eq_refl (or_intror eq_refl)).
Defined.

(** X19. What follows the object of the body is never looked at: bytes
    appended to a body that is a JSON object, be they JSON or not, give
    the same session. *)
Theorem newCodecRequest_ignores_trailing_bytes (body junk : string)
    (ms : list (string * json.value)) :
  json.parse body = Some (json.Object ms) ->
  snd (newCodecRequest (incoming (body ++ junk))) = snd (newCodecRequest (incoming body)).
Proof.
  intros Hparse. destruct (parse_first_value _ _ Hparse) as (rest & Hfirst & _).
  pose proof (Decode_first_value body new_serverRequest _ rest Hfirst) as Hdec.
  unfold newCodecRequest, incoming. simpl.
  assert (Hsame : Decoder.Decode (body ++ junk) new_serverRequest
                  = Decoder.Decode body new_serverRequest);
    [| rewrite Hsame; destruct (Decoder.Decode body new_serverRequest); reflexivity].
  destruct ms as [| m ms].
  - destruct Hdec as (-> & x & r1 & Hbody & Hx).
    unfold Decoder.Decode.
    rewrite (skip_space_append _ _ junk _ Hbody). simpl.
    rewrite (skip_space_append _ _ junk _ Hx). reflexivity.
  - destruct Hdec as (tms & pm & x & Hmap & _ & -> & Hbody & Hx & Hloc).
    unfold Decoder.Decode.
    rewrite (skip_space_append _ _ junk _ Hbody). simpl.
    pose proof (skip_space_length body) as Hlen1. rewrite Hbody in Hlen1.
    pose proof (skip_space_length x) as Hlen2. rewrite Hx in Hlen2.
    simpl in Hlen1. rewrite length_append in Hlen2.
    destruct pm as [| c1 pm'].
    { specialize (Hloc "" 0 ltac:(simpl; lia)). discriminate Hloc. }
    rewrite append_cons in Hx.
    rewrite (skip_space_append _ _ junk _ Hx).
    assert (Hc1 : (c1 =? "}")%char = false).
    { specialize (Hloc "" _ (Nat.le_refl _)). simpl in Hloc.
      destruct (c1 =? "}")%char eqn:Hc1; [| reflexivity].
      apply Ascii.eqb_eq in Hc1. subst c1. discriminate Hloc. }
    rewrite Hc1, append_assoc, <- append_cons.
    rewrite Hloc; [reflexivity |].
    rewrite length_append. simpl in Hlen2 |- *. lia.
Qed.

Lemma newCodecRequest_ignores_trailing_bytes_witness :
  json.parse ping_body
  = Some (json.Object [("action", json.String "Calc"); ("method", json.String "Ping")])
  /\ json.parse (ping_body ++ "}]") = None
  /\ snd (newCodecRequest (incoming (ping_body ++ "}]")))
     = snd (newCodecRequest (incoming ping_body)).
Proof.
  split; [reflexivity | split; [reflexivity |]].
  exact (newCodecRequest_ignores_trailing_bytes ping_body "}]"
           [("action", json.String "Calc"); ("method", json.String "Ping")] eq_refl).
Defined.

(** X20. A body without arguments: when the body is a JSON object in
    which every member that names [data] is [null] (or there is none),
    [data] is nil in the session, and, if the session holds no error, the
    first [ReadRequest] puts the canonical null there, leaves the target
    alone and returns nil. *)
Theorem newCodecRequest_no_data {T : Type} `{json.Unmarshaler T}
    (body : string) (ms : list (string * json.value)) (c : CodecRequest) (args : T) :
  json.parse body = Some (json.Object ms) ->
  (forall key v, In (key, v) ms ->
                 Decoder.field_of_key (Decoder.unquote key) = Some Decoder.Params_ ->
                 v = json.Null) ->
  c = snd (newCodecRequest (incoming body)) ->
  req_Params (request c) = None
  /\ (err c = None -> ReadRequest c args = (set_Params (Some null) c, args, None)).
Proof.
  intros Hparse Hnull ->.
  destruct (parse_first_value _ _ Hparse) as (rest & Hfirst & _).
  pose proof (Decode_first_value body new_serverRequest _ rest Hfirst) as Hdec.
  assert (Hp : req_Params (request (snd (newCodecRequest (incoming body)))) = None).
  { unfold newCodecRequest, incoming. simpl.
    destruct ms as [| m ms].
    - rewrite (proj1 Hdec). reflexivity.
    - destruct Hdec as (tms & pm & x & Hmap & _ & -> & _).
      pose proof (fold_store_member_keeps_no_data tms (new_serverRequest, None)) as Hfold.
      rewrite Hmap in Hfold. specialize (Hfold Hnull eq_refl).
      destruct (fold_left _ _ _) as [req e]. exact Hfold. }
  split; [exact Hp |].
  intros Hc. unfold ReadRequest, ReadRequest_params.
  rewrite Hc, Hp, Unmarshal_null. unfold set_err, set_Params. simpl.
  rewrite Hc. reflexivity.
Qed.

Lemma ping_body_has_no_data (key : string) (v : json.value) :
  In (key, v) [("action", json.String "Calc"); ("method", json.String "Ping")] ->
  Decoder.field_of_key (Decoder.unquote key) = Some Decoder.Params_ ->
  v = json.Null.
Proof.
  intros [[= <- <-] | [[= <- <-] | []]] Hkey; vm_compute in Hkey; discriminate Hkey.
Qed.

Lemma newCodecRequest_no_data_witness :
  json.parse ping_body
  = Some (json.Object [("action", json.String "Calc"); ("method", json.String "Ping")])
  /\ req_Params (request (snd (newCodecRequest (incoming ping_body)))) = None
  /\ (err (snd (newCodecRequest (incoming ping_body))) = None ->
      ReadRequest (snd (newCodecRequest (incoming ping_body))) 7%Z
      = (set_Params (Some null) (snd (newCodecRequest (incoming ping_body))), 7%Z, None)).
Proof.
  split; [reflexivity |].
  exact (newCodecRequest_no_data ping_body
           [("action", json.String "Calc"); ("method", json.String "Ping")]
           (snd (newCodecRequest (incoming ping_body))) 7%Z
           eq_refl ping_body_has_no_data eq_refl).
Defined.


